(** * Veri-Charm: the demo ledger, the privacy redactor and the warranty circuit

    A shallow embedding of three parts of the repository:

    - [Redactor]: [isSensitiveField], [extractPublicData], [hashData],
      [applyPrivacyShield] and [getSupplyChainHistory] of the Scrolls API
      service (webapp/src/services/scrolls-api.js);
    - [App]: the in-browser application state of the demo page, with
      [addTransaction], [verifyRetailerAddress], [confirmReceipt],
      [showTokenDetails], [togglePrivacy] and [burnToken];
    - [Circuit]: the template [ProductVerification] of
      circuits/product-verification.circom over the scalar field of BN254,
      with the comparator templates of circomlib it instantiates.

    DOM rendering is left out: it reads the state and never writes it. *)

From Stdlib Require Import ZArith Lia Ascii String DecimalString Sorted.
From stdpp Require Import base decidable option list strings sorting gmap.

Local Open Scope Z_scope.

(** ** JavaScript values and strings *)

Module Js.

(** A value as [JSON.parse] produces it.  A number is carried as the bit
    pattern of its double; an object is the list of its own enumerable
    properties, in the order [Object.entries] yields them. *)
#[local] Unset Elimination Schemes.
Inductive value : Type :=
| VNull
| VBool (b : bool)
| VNum (bits : Z)
| VStr (s : string)
| VArr (items : list value)
| VObj (entries : list (string * value)).
#[local] Set Elimination Schemes.

(** Values a [typeof] test calls primitive (null included, as the code tests
    [data !== null] apart). *)
Definition is_primitive (v : value) : bool :=
  match v with
  | VArr _ | VObj _ => false
  | _ => true
  end.

(** JavaScript truthiness on these values: [null], [false], [+0], [-0],
    NaN and the empty string are falsy. *)
Definition is_nan_bits (bits : Z) : bool :=
  (Z.land (Z.shiftr bits 52) 2047 =? 2047) && negb (Z.land bits (2 ^ 52 - 1) =? 0).

Definition truthy (v : value) : bool :=
  match v with
  | VNull => false
  | VBool b => b
  | VNum bits => negb ((Z.land bits (2 ^ 63 - 1) =? 0) || is_nan_bits bits)
  | VStr s => negb (String.eqb s "")
  | VArr _ | VObj _ => true
  end.

(** [obj[key]] on own properties; [None] stands for [undefined]. *)
Fixpoint get (key : string) (entries : list (string * value)) : option value :=
  match entries with
  | [] => None
  | (k, v) :: rest => if String.eqb k key then Some v else get key rest
  end.

(** The property names every plain object inherits from
    [Object.prototype]: [obj[name]] finds them on an object that has no own
    property of the name. *)
Definition objectPrototypeNames : list string :=
  ["constructor"; "hasOwnProperty"; "isPrototypeOf"; "propertyIsEnumerable";
   "toLocaleString"; "toString"; "valueOf"; "__proto__";
   "__defineGetter__"; "__defineSetter__";
   "__lookupGetter__"; "__lookupSetter__"].

(** Writing an own data property: the property is overwritten in place
    when it exists and added after the others when it does not. *)
Fixpoint put (key : string) (v : value) (entries : list (string * value))
  : list (string * value) :=
  match entries with
  | [] => [(key, v)]
  | (k, w) :: rest =>
      if String.eqb k key then (k, v) :: rest else (k, w) :: put key v rest
  end.

(** [obj[key] = v] on an object made by a literal or by [JSON.parse].  The
    name [__proto__] is an accessor of [Object.prototype]: assigning to it
    runs the setter, which replaces the prototype of the object when [v] is
    an object or [null] and does nothing otherwise; in neither case does
    the object get an own property.  Any other name is written as an own
    property.  (A [value] carries the own properties only, which is what
    [Object.entries] and [JSON.stringify] read.) *)
Definition set (key : string) (v : value) (entries : list (string * value))
  : list (string * value) :=
  if String.eqb key "__proto__" then entries else put key v entries.

(** [String.prototype.toLowerCase].  A string is carried as its UTF-8
    bytes.  The letters A to Z are lowered, and so are the two characters
    outside ASCII whose lower case has an ASCII letter in it: U+212A KELVIN
    SIGN, which becomes [k], and U+0130, which becomes [i] followed by
    U+0307.  The lower case of any other character outside ASCII is made of
    characters outside ASCII, whichever Unicode version the engine has;
    such a character is kept as it is, which leaves every comparison of
    the result with ASCII text as the code has it. *)
Definition lower_ascii (c : ascii) : ascii :=
  let n := N_of_ascii c in
  if ((65 <=? n) && (n <=? 90))%N then ascii_of_N (n + 32) else c.

Definition is_dotted_I (c c1 : ascii) : bool :=
  Ascii.eqb c "196" && Ascii.eqb c1 "176".

Definition is_kelvin (c c1 c2 : ascii) : bool :=
  Ascii.eqb c "226" && Ascii.eqb c1 "132" && Ascii.eqb c2 "170".

Fixpoint toLowerCase (s : string) : string :=
  match s with
  | EmptyString => EmptyString
  | String c rest =>
      match rest with
      | String c1 rest1 =>
          if is_dotted_I c c1 then
            String "i" (String "204" (String "135" (toLowerCase rest1)))
          else
            match rest1 with
            | String c2 rest2 =>
                if is_kelvin c c1 c2 then String "k" (toLowerCase rest2)
                else String (lower_ascii c) (toLowerCase rest)
            | EmptyString => String (lower_ascii c) (toLowerCase rest)
            end
      | EmptyString => String (lower_ascii c) EmptyString
      end
  end.

(** A byte that is an ASCII character by itself, and text made of them. *)
Definition isAscii (c : ascii) : bool := (N_of_ascii c <? 128)%N.

Fixpoint isAsciiText (s : string) : bool :=
  match s with
  | EmptyString => true
  | String c rest => isAscii c && isAsciiText rest
  end.

(** [s.startsWith(search)] and [s.includes(search)]. *)
Fixpoint startsWith (s search : string) : bool :=
  match search, s with
  | EmptyString, _ => true
  | String _ _, EmptyString => false
  | String a search', String b s' => Ascii.eqb a b && startsWith s' search'
  end.

Fixpoint includes (s search : string) : bool :=
  startsWith s search ||
  match s with
  | EmptyString => false
  | String _ rest => includes rest search
  end.

(** [s.padStart(n, "0")]. *)
Definition padStart0 (n : nat) (s : string) : string :=
  String.string_of_list_ascii (replicate (n - String.length s) "0"%char) +:+ s.

(** [n.toString()] for an integer. *)
Definition toString (n : Z) : string := NilZero.string_of_int (Z.to_int n).

End Js.

Export Js.

(** ** The privacy redactor of the Scrolls API service *)

Module Redactor.

Definition sensitiveFields : list string :=
  ["privateKey"; "secret"; "password"; "pin";
   "address"; "email"; "phone"; "ssn"; "dob"].

(** [isSensitiveField(fieldName)]. *)
Definition isSensitiveField (fieldName : string) : bool :=
  existsb (λ sensitive, includes (toLowerCase fieldName) (toLowerCase sensitive))
          sensitiveFields.

Definition REDACTED : value := VStr "[REDACTED]".

(** [extractPublicData(data)]: arrays are mapped, objects are rebuilt
    property by property into a fresh [publicData], anything else is
    returned as it is. *)
Fixpoint extractPublicData (data : value) : value :=
  match data with
  | VArr items => VArr (map extractPublicData items)
  | VObj entries =>
      VObj (fold_left
              (λ publicData kv,
                 Js.set kv.1
                   (if isSensitiveField kv.1 then REDACTED
                    else extractPublicData kv.2)
                   publicData)
              entries [])
  | _ => data
  end.

(** What one turn of the loop stores under [kv.1]. *)
Definition publicEntry (kv : string * value) : string * value :=
  (kv.1, if isSensitiveField kv.1 then REDACTED else extractPublicData kv.2).

(** Every property of every object inside a value, at any depth. *)
Fixpoint fields (v : value) : list (string * value) :=
  match v with
  | VArr items => flat_map fields items
  | VObj entries => flat_map (λ kv, kv :: fields kv.2) entries
  | _ => []
  end.

(** A place in a value: the member names and array indices that lead to
    it from the top. *)
Inductive Step :=
| Member (name : string)
| Element (index : nat).

(** What a value has at a place, by own properties and elements. *)
Fixpoint valueAt (path : list Step) (v : value) : option value :=
  match path, v with
  | [], _ => Some v
  | Member name :: rest, VObj entries =>
      match Js.get name entries with
      | Some w => valueAt rest w
      | None => None
      end
  | Element index :: rest, VArr items =>
      match items !! index with
      | Some w => valueAt rest w
      | None => None
      end
  | _, _ => None
  end.

(** The steps the redactor goes through and keeps: an array index, and a
    member name that is neither sensitive nor [__proto__]. *)
Definition copied (step : Step) : Prop :=
  match step with
  | Member name => isSensitiveField name = false ∧ name ≠ "__proto__"
  | Element _ => True
  end.

(** Objects as JavaScript has them: no two members of an object share a
    name, at any depth. *)
Fixpoint distinctNames (v : value) : Prop :=
  match v with
  | VArr items => fold_right (λ item rest, distinctNames item ∧ rest) True items
  | VObj entries =>
      NoDup entries.*1
      ∧ fold_right (λ kv rest, distinctNames kv.2 ∧ rest) True entries
  | _ => True
  end.

(** The nine patterns as the test sees them, after [toLowerCase]. *)
Definition loweredPatterns : list string :=
  ["privatekey"; "secret"; "password"; "pin";
   "address"; "email"; "phone"; "ssn"; "dob"].

(** The loop over [Object.entries(data)], started on any [publicData]. *)
Definition rebuild (entries publicData : list (string * value)) :=
  fold_left (λ acc kv, Js.set kv.1 (publicEntry kv).2 acc) entries publicData.

(** [b.toString(16).padStart(2, '0')] for a byte. *)
Definition hexDigit (d : N) : ascii :=
  match d with
  | 0 => "0" | 1 => "1" | 2 => "2" | 3 => "3" | 4 => "4" | 5 => "5"
  | 6 => "6" | 7 => "7" | 8 => "8" | 9 => "9" | 10 => "a" | 11 => "b"
  | 12 => "c" | 13 => "d" | 14 => "e" | _ => "f"
  end%N%char.

Definition hexByte (b : N) : string :=
  padStart0 2
    (if (b <? 16)%N then String (hexDigit b) ""
     else String (hexDigit (b / 16)) (String (hexDigit (b mod 16)) "")).

(** The three members read from what [zk.generateProof] resolves to. *)
Record ProofBundle := {
  proof : value;
  publicSignals : value;
  verificationKey : value;
}.

Inductive ConsoleEntry :=
| ConsoleWarn (message : string).

(** The one line the fallback writes to the console. *)
Definition fallbackWarning : ConsoleEntry :=
  ConsoleWarn "ZK privacy shield failed, falling back to plain data:".

(** [v[key]] on own properties. *)
Definition member (key : string) (v : value) : option value :=
  match v with
  | VObj entries => Js.get key entries
  | _ => None
  end.

(** What an asynchronous method settles with. *)
Inductive Settled (A : Type) :=
| Resolved (result : A) (console : list ConsoleEntry)
| Rejected.
Arguments Resolved {A} result console.
Arguments Rejected {A}.

Section Service.

(** [TextEncoder.encode(JSON.stringify(data))], the bytes. *)
Variable encodeJson : value → list N.

(** [zk.generateProof('privacy-shield', {publicInputs: {dataHash},
    privateInputs: {rawData}})] of the external prover; [None] when the
    call throws or its promise rejects. *)
Variable generateProof : string → value → option ProofBundle.

(** [hashData(data)]. *)
Definition hashData (data : value) : string :=
  fold_right (λ b acc, hexByte b +:+ acc) "" (encodeJson data).

(** [applyPrivacyShield(data)]: the value the promise resolves to, with
    what was written to the console. *)
Definition applyPrivacyShield (data : value) : value * list ConsoleEntry :=
  match generateProof (hashData data) data with
  | Some zkProof =>
      (VObj [("proof", proof zkProof);
             ("publicSignals", publicSignals zkProof);
             ("verificationKey", verificationKey zkProof);
             ("publicData", extractPublicData data)],
       [])
  | None =>
      (data,
       [ConsoleWarn "ZK privacy shield failed, falling back to plain data:"])
  end.

(** [getSupplyChainHistory(productId, {privacy})] from the point where the
    GET has answered: [response] is [response.data], [None] when the
    request failed.  With [privacy] set, [.history] is read, which throws on
    [null] inside the [try] and is rethrown through [handleError]. *)
Definition getSupplyChainHistory (privacy : bool) (response : option value)
  : Settled value :=
  match response with
  | None => Rejected
  | Some VNull => if privacy then Rejected else Resolved VNull []
  | Some (VObj entries) =>
      match Js.get "history" entries with
      | Some history =>
          if privacy && truthy history then
            let '(shielded, console) := applyPrivacyShield history in
            Resolved (VObj (Js.set "history" shielded entries)) console
          else Resolved (VObj entries) []
      | None => Resolved (VObj entries) []
      end
  | Some data => Resolved data []
  end.

End Service.

End Redactor.

(** ** The demo page: application state and its operations *)

Module Product.
(** An entry of [appState.productInfo]; an absent member is [None]. *)
Record t := {
  name : string;
  price : Z;
  retailer : string;
  retailerAddress : string;
  supplier : string;
  supplierAddress : string;
  tokenIdPrefix : string;
  category : string;
  icon : option string;
  carbonFootprint : option string;
  certification : option string;
}.
End Product.

Module Token.
(** A token object of [appState.ownedTokens]; [burnLockDate] is the
    instant of the [Date], in milliseconds since the epoch. *)
Record t := {
  id : string;
  product : string;
  retailer : string;
  category : string;
  purchaseDate : string;
  purchaseTime : string;
  burnLockDate : Z;
  price : Z;
  icon : string;
  certification : option string;
  carbonFootprint : option string;
}.
End Token.

Module Transaction.
Inductive kind := mint | payment | transfer | burn.

(** A transaction object; [id] and a missing [timestamp] are filled in by
    [addTransaction]. *)
Record t := {
  id : option Z;
  type : kind;
  product : string;
  from : string;
  to : string;
  tokenId : option string;
  amount : option string;
  timestamp : option string;
  certification : option string;
  carbonFootprint : option string;
}.

Definition stamp (n : Z) (time : string) (tx : t) : t :=
  {| id := Some n; type := type tx; product := product tx; from := from tx;
     to := to tx; tokenId := tokenId tx; amount := amount tx;
     timestamp :=
       match timestamp tx with
       | Some ts => if String.eqb ts "" then Some time else Some ts
       | None => Some time
       end;
     certification := certification tx;
     carbonFootprint := carbonFootprint tx |}.
End Transaction.

Module App.

(** [x || fallback] and [if (x)] on an optional string member. *)
Definition truthyStr (x : option string) : bool :=
  match x with
  | Some s => negb (String.eqb s "")
  | None => false
  end.

Record State := {
  balance : Z;
  currentProduct : option string;
  transactionCounter : Z;
  ownedTokens : list Token.t;
  transactions : list Transaction.t;
  privacyEnabled : bool;
  purchaseInProgress : bool;
}.

(** The four members of [appState.productInfo]. *)
Definition fragrance : Product.t :=
  {| Product.name := "Éclat de Lune"; Product.price := 50;
     Product.retailer := "Scent & Soul Boutique";
     Product.retailerAddress := "0xU...rah5r";
     Product.supplier := "L'Éclat des Cieux";
     Product.supplierAddress := "addr1...RvT5";
     Product.tokenIdPrefix := "#LUX-";
     Product.category := "Luxury Fragrance";
     Product.icon := Some "fas fa-gem";
     Product.carbonFootprint := None; Product.certification := None |}.

Definition medication : Product.t :=
  {| Product.name := "Amoxiclav-Duo"; Product.price := 10;
     Product.retailer := "TrustCare Pharmacy";
     Product.retailerAddress := "0xU...ph4rm";
     Product.supplier := "VitaSure Pharmaceuticals";
     Product.supplierAddress := "addr1...Ph8K";
     Product.tokenIdPrefix := "#PH-";
     Product.category := "Sensitive Medication";
     Product.icon := Some "fas fa-prescription-bottle";
     Product.carbonFootprint := None; Product.certification := None |}.

Definition produce : Product.t :=
  {| Product.name := "Royal Purple Eggplants"; Product.price := 5;
     Product.retailer := "Farmers' Fresh Market";
     Product.retailerAddress := "0xU...m4rkT";
     Product.supplier := "GreenRoots Organic Farm";
     Product.supplierAddress := "addr1...Gr3F";
     Product.tokenIdPrefix := "#ORG-";
     Product.category := "Organic Produce";
     Product.icon := Some "fas fa-seedling";
     Product.carbonFootprint := None; Product.certification := None |}.

Definition energy : Product.t :=
  {| Product.name := "EcoGrid Power Inverter"; Product.price := 150;
     Product.retailer := "GreenTech Solutions";
     Product.retailerAddress := "0xU...Gr3nT";
     Product.supplier := "EcoVolt Technologies";
     Product.supplierAddress := "addr1...Ec0V";
     Product.tokenIdPrefix := "#ECO-";
     Product.category := "Renewable Energy Component";
     Product.icon := Some "fas fa-solar-panel";
     Product.carbonFootprint := Some "Low (35g CO₂/kWh)";
     Product.certification := Some "Carbon Neutral Certified" |}.

Definition productInfo : list (string * Product.t) :=
  [("fragrance", fragrance); ("medication", medication);
   ("produce", produce); ("energy", energy)].

(** [appState.productInfo[productType]] when that is one of the four
    products, and [None] when it is not.  The code's lookup goes on to
    [Object.prototype]: for a name of [Js.objectPrototypeNames], such as
    [constructor], it finds a function or an object, which is not
    [undefined] and is no product: it has no price, prefix or retailer.
    The operations below are the code's on every other name, the
    [ordinary] ones. *)
Definition productOf (productType : option string) : option Product.t :=
  match productType with
  | None => None
  | Some key => snd <$> List.find (λ kp, String.eqb kp.1 key) productInfo
  end.

(** A product type on which the lookup in the table is the table's own
    entry or [undefined]. *)
Definition ordinary (productType : string) : Prop :=
  productType ∉ Js.objectPrototypeNames.

(** The object literal [appState] starts as. *)
Definition appState : State :=
  {| balance := 200; currentProduct := None; transactionCounter := 0;
     ownedTokens := []; transactions := [];
     privacyEnabled := false; purchaseInProgress := false |}.

(** What the page shows in answer to an operation. *)
Inductive AddressAlert :=
| UntrustedAddress
| AddressMismatch (retailer : string)
| AddressVerified.

Inductive Output :=
| AlertInsufficientBalance (price balance : Z)
| AlertTokenNotFound
| AlertTokenDetails (token : Token.t)
| AlertTokenLocked (daysRemaining : Z)
| AlertTokenBurned (tokenId : string)
| ShowAlert (message : AddressAlert)
| EnableSendButton
| OpenModal (modalId : string)
| TypeError.

(** [Math.ceil(ms / (1000 * 60 * 60 * 24))]. *)
Definition dayMs : Z := 1000 * 60 * 60 * 24.
Definition ceilDays (ms : Z) : Z := - ((- ms) / dayMs).

Definition trustedAddresses : list string :=
  ["0xU...rah5r"; "0xU...ph4rm"; "0xU...m4rkT"; "0xU...Gr3nT"].

(** [Date.prototype.toLocaleTimeString([], {hour: '2-digit', minute:
    '2-digit'})] and [toLocaleDateString()] of the browser, on an instant
    in milliseconds. *)
Class Locale := {
  toLocaleTimeString : Z → string;
  toLocaleDateString : Z → string;
}.

Section Clock.

Context {locale : Locale}.

(** [getCurrentTimestamp()] when the clock reads [now]. *)
Definition getCurrentTimestamp (now : Z) : string := toLocaleTimeString now.

(** [addTransaction(tx)]: the counter is read then incremented, and the
    stamped object is put at the front of the array ([unshift]).  The
    counter is an integer far below 2^53, where [++] is exact. *)
Definition addTransaction (now : Z) (tx : Transaction.t) (s : State) : State :=
  {| balance := balance s; currentProduct := currentProduct s;
     transactionCounter := transactionCounter s + 1;
     ownedTokens := ownedTokens s;
     transactions :=
       Transaction.stamp (transactionCounter s) (getCurrentTimestamp now) tx
         :: transactions s;
     privacyEnabled := privacyEnabled s;
     purchaseInProgress := purchaseInProgress s |}.

Definition withTokens (tokens : list Token.t) (s : State) : State :=
  {| balance := balance s; currentProduct := currentProduct s;
     transactionCounter := transactionCounter s;
     ownedTokens := tokens; transactions := transactions s;
     privacyEnabled := privacyEnabled s;
     purchaseInProgress := purchaseInProgress s |}.

(** [loadInitialTransactions()]: four mints, then four transfers to the
    retailers. *)
Definition initialTx (k : Transaction.kind) (product from to tokenId ts : string)
    (certification carbonFootprint : option string) : Transaction.t :=
  {| Transaction.id := None; Transaction.type := k;
     Transaction.product := product; Transaction.from := from;
     Transaction.to := to; Transaction.tokenId := Some tokenId;
     Transaction.amount := None; Transaction.timestamp := Some ts;
     Transaction.certification := certification;
     Transaction.carbonFootprint := carbonFootprint |}.

Definition initialMints : list Transaction.t :=
  [initialTx Transaction.mint "Éclat de Lune" "addr1...RvT5" "Factory Mint"
     "#LUX-001" "2 days ago" None None;
   initialTx Transaction.mint "Amoxiclav-Duo" "addr1...Ph8K" "Factory Mint"
     "#PH-001" "1 day ago" None None;
   initialTx Transaction.mint "Royal Purple Eggplants" "addr1...Gr3F"
     "Factory Mint" "#ORG-001" "3 days ago" None None;
   initialTx Transaction.mint "EcoGrid Power Inverter" "addr1...Ec0V"
     "Factory Mint" "#ECO-001" "4 days ago" None (Some "Low (35g CO₂/kWh)")].

Definition initialTransfers : list Transaction.t :=
  [initialTx Transaction.transfer "Éclat de Lune" "addr1...RvT5" "0xU...rah5r"
     "#LUX-001" "1 day ago" None None;
   initialTx Transaction.transfer "Amoxiclav-Duo" "addr1...Ph8K" "0xU...ph4rm"
     "#PH-001" "Yesterday" None None;
   initialTx Transaction.transfer "Royal Purple Eggplants" "addr1...Gr3F"
     "0xU...m4rkT" "#ORG-001" "2 days ago" None None;
   initialTx Transaction.transfer "EcoGrid Power Inverter" "addr1...Ec0V"
     "0xU...Gr3nT" "#ECO-001" "2 days ago" (Some "Carbon Neutral Certified") None].

Definition loadInitialTransactions (now : Z) (s : State) : State :=
  fold_left (λ st tx, addTransaction now tx st)
            (initialMints ++ initialTransfers) s.

(** [openPurchaseModal(productType)]: the product is selected before the
    balance is looked at; an ordinary type the table does not have makes
    [product.price] throw. *)
Definition openPurchaseModal (productType : string) (s : State)
  : State * list Output :=
  let s' :=
    {| balance := balance s; currentProduct := Some productType;
       transactionCounter := transactionCounter s;
       ownedTokens := ownedTokens s; transactions := transactions s;
       privacyEnabled := privacyEnabled s;
       purchaseInProgress := purchaseInProgress s |} in
  match productOf (Some productType) with
  | None => (s', [TypeError])
  | Some product =>
      if balance s <? Product.price product
      then (s', [AlertInsufficientBalance (Product.price product) (balance s)])
      else (s', [OpenModal "purchase-modal"])
  end.

(** [closeModal()]. *)
Definition closeModal (s : State) : State :=
  {| balance := balance s; currentProduct := currentProduct s;
     transactionCounter := transactionCounter s;
     ownedTokens := ownedTokens s; transactions := transactions s;
     privacyEnabled := privacyEnabled s; purchaseInProgress := false |}.

(** [verifyRetailerAddress(address, product)]. *)
Definition verifyRetailerAddress (now : Z) (address : string)
    (product : Product.t) (s : State) : State * list Output :=
  if negb (bool_decide (address ∈ trustedAddresses)) then
    (s, [ShowAlert UntrustedAddress; EnableSendButton])
  else
    let shown :=
      if negb (String.eqb address (Product.retailerAddress product))
      then ShowAlert (AddressMismatch (Product.retailer product))
      else ShowAlert AddressVerified in
    (addTransaction now
       {| Transaction.id := None; Transaction.type := Transaction.payment;
          Transaction.product := Product.name product;
          Transaction.from := "bc1q...demo"; Transaction.to := address;
          Transaction.tokenId := None;
          Transaction.amount :=
            Some (toString (Product.price product) +:+ " DLLR");
          Transaction.timestamp := Some (getCurrentTimestamp now);
          Transaction.certification := None;
          Transaction.carbonFootprint := None |} s,
     [shown]).

(** [sendPayment()] once its timer has fired; [address] is the trimmed
    content of the retailer-address field. *)
Definition sendPayment (now : Z) (address : string) (s : State)
  : State * list Output :=
  match productOf (currentProduct s) with
  | None => (s, [])
  | Some product => verifyRetailerAddress now address product s
  end.

(** The id [confirmReceipt] builds from [draw], the value of
    [Math.floor(Math.random() * 100)]. *)
Definition newTokenId (product : Product.t) (draw : Z) : string :=
  Product.tokenIdPrefix product +:+ padStart0 3 (toString (draw + 1)).

(** [confirmReceipt()]. *)
Definition confirmReceipt (now : Z) (draw : Z) (s : State)
  : State * list Output :=
  match productOf (currentProduct s) with
  | None => (s, [])
  | Some product =>
      let tokenId := newTokenId product draw in
      let token :=
        {| Token.id := tokenId; Token.product := Product.name product;
           Token.retailer := Product.retailer product;
           Token.category := Product.category product;
           Token.purchaseDate := toLocaleDateString now;
           Token.purchaseTime := getCurrentTimestamp now;
           Token.burnLockDate := now + 14 * 24 * 60 * 60 * 1000;
           Token.price := Product.price product;
           Token.icon :=
             (if truthyStr (Product.icon product)
              then default "" (Product.icon product) else "fas fa-tag");
           Token.certification :=
             (if truthyStr (Product.certification product)
              then Product.certification product else None);
           Token.carbonFootprint :=
             (if truthyStr (Product.carbonFootprint product)
              then Product.carbonFootprint product else None) |} in
      let s1 :=
        {| balance := balance s - Product.price product;
           currentProduct := currentProduct s;
           transactionCounter := transactionCounter s;
           ownedTokens := ownedTokens s ++ [token];
           transactions := transactions s;
           privacyEnabled := privacyEnabled s;
           purchaseInProgress := purchaseInProgress s |} in
      let s2 :=
        addTransaction now
          {| Transaction.id := None; Transaction.type := Transaction.transfer;
             Transaction.product := Product.name product;
             Transaction.from := Product.retailerAddress product;
             Transaction.to := "bc1q...demo";
             Transaction.tokenId := Some tokenId;
             Transaction.amount := None;
             Transaction.timestamp := Some (getCurrentTimestamp now);
             Transaction.certification := Product.certification product;
             Transaction.carbonFootprint := Product.carbonFootprint product |}
          s1 in
      (closeModal s2, [OpenModal "success-modal"])
  end.

(** [showTokenDetails(tokenId)]. *)
Definition showTokenDetails (tokenId : string) (s : State)
  : State * list Output :=
  match list_find (λ t, Token.id t = tokenId) (ownedTokens s) with
  | None => (s, [AlertTokenNotFound])
  | Some (_, token) => (s, [AlertTokenDetails token])
  end.

(** [togglePrivacy()]. *)
Definition togglePrivacy (s : State) : State :=
  {| balance := balance s; currentProduct := currentProduct s;
     transactionCounter := transactionCounter s;
     ownedTokens := ownedTokens s; transactions := transactions s;
     privacyEnabled := negb (privacyEnabled s);
     purchaseInProgress := purchaseInProgress s |}.

(** [burnToken(tokenId)]; [confirmed] is the answer to the [confirm]
    dialog. *)
Definition burnToken (now : Z) (confirmed : bool) (tokenId : string)
    (s : State) : State * list Output :=
  match list_find (λ t, Token.id t = tokenId) (ownedTokens s) with
  | None => (s, [AlertTokenNotFound])
  | Some (tokenIndex, token) =>
      let lockDate := Token.burnLockDate token in
      if now <? lockDate then
        (s, [AlertTokenLocked (ceilDays (lockDate - now))])
      else if negb confirmed then (s, [])
      else
        let s1 :=
          addTransaction now
            {| Transaction.id := None; Transaction.type := Transaction.burn;
               Transaction.product := Token.product token;
               Transaction.from := "bc1q...demo";
               Transaction.to := "addr1...daf4w (Burn Address)";
               Transaction.tokenId := Some tokenId;
               Transaction.amount := None;
               Transaction.timestamp := Some (getCurrentTimestamp now);
               Transaction.certification := None;
               Transaction.carbonFootprint := None |} s in
        (withTokens (delete tokenIndex (ownedTokens s1)) s1,
         [AlertTokenBurned tokenId])
  end.

(** The page as a transition system: one operation per user action. *)
Inductive Op :=
| OpOpenPurchaseModal (productType : string)
| OpCloseModal
| OpSendPayment (address : string)
| OpConfirmReceipt (draw : Z)
| OpShowTokenDetails (tokenId : string)
| OpTogglePrivacy
| OpBurnToken (tokenId : string) (confirmed : bool).

Definition run (now : Z) (op : Op) (s : State) : State * list Output :=
  match op with
  | OpOpenPurchaseModal productType => openPurchaseModal productType s
  | OpCloseModal => (closeModal s, [])
  | OpSendPayment address => sendPayment now address s
  | OpConfirmReceipt draw => confirmReceipt now draw s
  | OpShowTokenDetails tokenId => showTokenDetails tokenId s
  | OpTogglePrivacy => (togglePrivacy s, [])
  | OpBurnToken tokenId confirmed => burnToken now confirmed tokenId s
  end.

(** Operations that ask for ordinary product types only. *)
Definition ordinaryOp (op : Op) : Prop :=
  match op with
  | OpOpenPurchaseModal productType => ordinary productType
  | _ => True
  end.

Definition ordinarySession (ops : list (Z * Op)) : Prop :=
  Forall (λ timed, ordinaryOp timed.2) ops.

(** A session: operations with the instants they happen at, started on
    the state the page has once it is loaded. *)
Fixpoint runAll (ops : list (Z * Op)) (s : State) : State :=
  match ops with
  | [] => s
  | (now, op) :: rest => runAll rest (run now op s).1
  end.

Definition loaded (now : Z) : State := loadInitialTransactions now appState.

Definition reachable (s : State) : Prop :=
  ∃ now ops, s = runAll ops (loaded now).

(** ** What the properties of the page speak of *)

(** Ledger identifiers, newest first: all present, strictly decreasing and
    below the counter. *)
Definition ledger_ok (s : State) : Prop :=
  0 ≤ transactionCounter s
  ∧ ∃ ids, Transaction.id <$> transactions s = Some <$> ids
           ∧ StronglySorted (λ newer older, older < newer) ids
           ∧ Forall (λ i, 0 ≤ i < transactionCounter s) ids.

(** The ledger entries that carry a token id. *)
Definition eventsFor (tokenId : string) (s : State) : list Transaction.t :=
  filter (λ tx, Transaction.tokenId tx = Some tokenId) (transactions s).

Definition ownedIds (s : State) : list string := Token.id <$> ownedTokens s.

(** A trust directory by category, as the specification speaks of one, read
    off the product table: the retailer addresses of the products of the
    category.  The code itself has [trustedAddresses] only. *)
Definition retailersOf (category : string) : list string :=
  Product.retailerAddress
    <$> filter (λ product, Product.category product = category) productInfo.*2.

(** The transaction [burnToken] records. *)
Definition burnEntry (tokenId : string) (token : Token.t) (entry : Transaction.t)
  : Prop :=
  Transaction.type entry = Transaction.burn
  ∧ Transaction.tokenId entry = Some tokenId
  ∧ Transaction.product entry = Token.product token.

(** The id the next operation gives to a new token, if it makes one. *)
Definition assigns (op : Op) (s : State) : option string :=
  match op with
  | OpConfirmReceipt draw =>
      (λ product, newTokenId product draw) <$> productOf (currentProduct s)
  | _ => None
  end.

(** No operation of the session hands out [tokenId] again. *)
Fixpoint avoids (tokenId : string) (ops : list (Z * Op)) (s : State) : Prop :=
  match ops with
  | [] => True
  | (now, op) :: rest =>
      assigns op s ≠ Some tokenId ∧ avoids tokenId rest (run now op s).1
  end.

End Clock.

End App.

(** ** The warranty circuit *)

Module Circuit.

(** The prime of the scalar field circom compiles for by default (BN254);
    a signal is an integer in [0, p). *)
Definition p : Z :=
  21888242871839275222246405745257275088548364400416034343698204186575808495617.

Definition fadd (a b : Z) : Z := (a + b) mod p.
Definition fsub (a b : Z) : Z := (a - b) mod p.
Definition fmul (a b : Z) : Z := (a * b) mod p.

(** What instantiating a template yields: the value assigned to its output
    and whether the constraints it adds hold on the assigned values. *)
Record Component (A : Type) := {
  out : A;
  satisfied : bool;
}.
Arguments out {A} c.
Arguments satisfied {A} c.

(** circomlib, bitify.circom, [Num2Bits(n)]:
    [out[i] <-- (in >> i) & 1; out[i] * (out[i] - 1) === 0;
     lc1 += out[i] * e2; e2 = e2 + e2;] and at the end [lc1 === in]. *)
Definition Num2Bits (n : nat) (inp : Z) : Component (list Z) :=
  let bits := map (λ i, Z.land (Z.shiftr inp (Z.of_nat i)) 1) (seq 0 n) in
  let lc1 :=
    (fold_left (λ acc b, (fadd acc.1 (fmul b acc.2), fadd acc.2 acc.2))
               bits (0, 1)).1 in
  {| out := bits;
     satisfied :=
       forallb (λ b, fmul b (fsub b 1) =? 0) bits && (lc1 =? inp) |}.

(** circomlib, comparators.circom, [LessThan(n)]:
    [n2b = Num2Bits(n+1); n2b.in <== in[0] + (1<<n) - in[1];
     out <== 1 - n2b.out[n]]. *)
Definition LessThan (n : nat) (in0 in1 : Z) : Component Z :=
  let n2b := Num2Bits (n + 1) (fsub (fadd in0 (2 ^ Z.of_nat n)) in1) in
  {| out := fsub 1 (nth n (out n2b) 0);
     satisfied := satisfied n2b |}.

(** circomlib, comparators.circom, [LessEqThan(n)]:
    [lt = LessThan(n); lt.in[0] <== in[0]; lt.in[1] <== in[1] + 1;
     lt.out ==> out]. *)
Definition LessEqThan (n : nat) (in0 in1 : Z) : Component Z :=
  LessThan n in0 (fadd in1 1).

Record Inputs := {
  verificationHash : Z;
  manufacturerPublicKey : Z;
  currentTimestamp : Z;
  productId : Z;
  ownerPrivateKey : Z;
  mintTimestamp : Z;
  warrantyPeriod : Z;
  supplyChainHash : Z;
}.

Record Outputs := {
  isValid : Z;
  isInWarranty : Z;
  zkProofHash : Z;
}.

Section Template.

(** The Pedersen component as the template wires it: a hash of the two
    signals put on [pedersen.in[0]] and [pedersen.in[1]].  The output of
    the SHA-256 component is never read. *)
Variable Pedersen : Z → Z → Z.

(** [template ProductVerification()]. *)
Definition ProductVerification (i : Inputs) : Component Outputs :=
  let compare :=
    LessEqThan 64 (currentTimestamp i)
               (fadd (mintTimestamp i) (warrantyPeriod i)) in
  {| out :=
       {| isValid := 1;
          isInWarranty := out compare;
          zkProofHash := Pedersen (productId i) (supplyChainHash i) |};
     satisfied := satisfied compare |}.

End Template.

End Circuit.

(** ** Sample data and a sample session *)

Module Scenario.
Import Redactor App Circuit.

(** One supply-chain event with an address, and contact details nested
    under a name that is not sensitive. *)
Definition sampleEvents : value :=
  VArr [VObj [("type", VStr "transfer");
              ("from_address", VStr "bc1q...demo");
              ("details", VObj [("email", VStr "a@b.c"); ("note", VStr "ok")])]].

(** The name [private], U+212A KELVIN SIGN, [ey], in UTF-8. *)
Definition kelvinName : string :=
  "private" +:+ String "226" (String "132" (String "170" "ey")).

(** A prover that is down, and a server answer that already carries a
    privacy flag of its own. *)
Definition proverDown : string → value → option ProofBundle := λ _ _, None.

Definition sampleHistory : value :=
  VArr [VObj [("type", VStr "mint"); ("from_address", VStr "addr1...RvT5")]].

Definition sampleResponse : list (string * value) :=
  [("product_id", VStr "#LUX-001");
   ("history", sampleHistory);
   ("privacy_applied", VBool true)].

(** A browser whose clock prints the instant itself. *)
Definition demoLocale : Locale :=
  {| toLocaleTimeString := toString; toLocaleDateString := toString |}.

(** The fragrance is chosen, paid to its retailer and received with the
    draw 6, five seconds after the page was loaded. *)
Definition afterPurchase : State :=
  runAll (locale := demoLocale)
    [(0, OpOpenPurchaseModal "fragrance");
     (1000, OpSendPayment "0xU...rah5r");
     (5000, OpConfirmReceipt 6)]
    (loaded (locale := demoLocale) 0).

(** A second fragrance is received a second later, with the same draw. *)
Definition afterTwoPurchases : State :=
  (run (locale := demoLocale) 6000 (OpConfirmReceipt 6) afterPurchase).1.

Definition unlocked : Z := 5000 + 14 * dayMs.

(** The token that purchase leaves in the collection. *)
Definition purchasedToken : Token.t :=
  {| Token.id := "#LUX-007"; Token.product := "Éclat de Lune";
     Token.retailer := "Scent & Soul Boutique";
     Token.category := "Luxury Fragrance";
     Token.purchaseDate := "5000"; Token.purchaseTime := "5000";
     Token.burnLockDate := unlocked; Token.price := 50;
     Token.icon := "fas fa-gem";
     Token.certification := None; Token.carbonFootprint := None |}.

(** What the session goes on with after the burn: another product is
    bought and received, and the burn is tried again. *)
Definition laterOps : list (Z * Op) :=
  [(unlocked + 1000, OpOpenPurchaseModal "energy");
   (unlocked + 2000, OpSendPayment "0xU...Gr3nT");
   (unlocked + 3000, OpConfirmReceipt 6);
   (unlocked + 4000, OpShowTokenDetails "#LUX-007");
   (unlocked + 5000, OpBurnToken "#LUX-007" true)].

(** A mint timestamp at the top of the field. *)
Definition wrappedInputs : Inputs :=
  {| verificationHash := 0; manufacturerPublicKey := 0;
     currentTimestamp := 5; productId := 1; ownerPrivateKey := 2;
     mintTimestamp := p - 1; warrantyPeriod := 0; supplyChainHash := 3 |}.

Definition demoInputs : Inputs :=
  {| verificationHash := 0; manufacturerPublicKey := 0;
     currentTimestamp := 1767225600; productId := 1; ownerPrivateKey := 2;
     mintTimestamp := 1767225600 - 14; warrantyPeriod := 14;
     supplyChainHash := 3 |}.

End Scenario.

(** ** What the page displays *)

Module View.
Import App.

(** [getTransactionTitle(tx)]. *)
Definition getTransactionTitle (tx : Transaction.t) : string :=
  match Transaction.type tx with
  | Transaction.mint => "Token Minted"
  | Transaction.payment => "Payment Sent"
  | Transaction.transfer => "Token Transferred"
  | Transaction.burn => "Token Burned"
  end.

(** [getTransactionIcon(tx)]: [iconClass] and the class of the [<i>]
    element that [icon] is. *)
Definition getTransactionIcon (tx : Transaction.t) : string * string :=
  let byType :=
    match Transaction.type tx with
    | Transaction.mint => ("icon-mint", "fas fa-plus")
    | Transaction.payment => ("icon-payment", "fas fa-money-bill-wave")
    | Transaction.burn => ("icon-burn", "fas fa-fire")
    | Transaction.transfer => ("icon-transfer", "fas fa-exchange-alt")
    end in
  if negb (String.eqb (Transaction.product tx) "")
     && includes (Transaction.product tx) "EcoGrid"
  then ("icon-energy", "fas fa-bolt")
  else byType.

(** What [createTransactionElement] interpolates into the item. *)
Record TransactionItem := {
  iconClass : string;
  icon : string;
  title : string;
  productText : string;
  carbonInfo : option string;
  certificationInfo : option string;
  fromAddress : string;
  toAddress : string;
  tokenText : option string;
  timeText : string;
}.

(** [createTransactionElement(tx)] on the state [s]. *)
Definition createTransactionElement (s : State) (tx : Transaction.t)
  : TransactionItem :=
  let shown := getTransactionIcon tx in
  let fromAddress :=
    if privacyEnabled s
       && negb (String.eqb (Transaction.from tx) "")
       && includes (Transaction.from tx) "bc1q"
    then "zk:...verif1ed" else Transaction.from tx in
  let toAddress :=
    if privacyEnabled s
       && negb (String.eqb (Transaction.to tx) "")
       && includes (Transaction.to tx) "bc1q"
    then "zk:...verif1ed" else Transaction.to tx in
  {| iconClass := shown.1;
     icon := shown.2;
     title := getTransactionTitle tx;
     productText :=
       (if String.eqb (Transaction.product tx) "" then "Token Transaction"
        else Transaction.product tx);
     carbonInfo :=
       (if truthyStr (Transaction.carbonFootprint tx)
        then Transaction.carbonFootprint tx else None);
     certificationInfo :=
       (if truthyStr (Transaction.certification tx)
        then Transaction.certification tx else None);
     fromAddress := fromAddress;
     toAddress := toAddress;
     tokenText :=
       (if truthyStr (Transaction.tokenId tx)
        then Transaction.tokenId tx else None);
     timeText := default "undefined" (Transaction.timestamp tx) |}.

(** [updateExplorer()]: the items put into the history container, in
    order. *)
Definition updateExplorer (s : State) : list TransactionItem :=
  createTransactionElement s <$> transactions s.

(** What [createTokenElement] computes for the burn line and button;
    [onclick] is the id handed to [burnToken], if the button has a
    handler. *)
Record TokenCard := {
  token : Token.t;
  daysRemaining : Z;
  canBurn : bool;
  onclick : option string;
}.

(** [createTokenElement(token)] when the clock reads [now]. *)
Definition createTokenElement (now : Z) (token : Token.t) : TokenCard :=
  let daysRemaining := ceilDays (Token.burnLockDate token - now) in
  let canBurn := daysRemaining <=? 0 in
  {| token := token;
     daysRemaining := daysRemaining;
     canBurn := canBurn;
     onclick := if canBurn then Some (Token.id token) else None |}.

(** [updateTokenDisplay()]: the cards put into the token list, newest
    first; the empty list stands for the no-tokens message. *)
Definition updateTokenDisplay (now : Z) (s : State) : list TokenCard :=
  createTokenElement now <$> reverse (ownedTokens s).

(** [updateBuyButtons()]: for each product type, whether its button is
    disabled. *)
Definition updateBuyButtons (s : State) : list (string * bool) :=
  (λ entry, (entry.1, balance s <? Product.price entry.2)) <$> productInfo.

End View.

(** ** Quantities of a session *)

Module Session.
Import App.

(** The address the demo wallet has in every transaction the page
    records for it. *)
Definition demoWallet : string := "bc1q...demo".

#[global] Instance kind_eq_dec : EqDecision Transaction.kind.
Proof. solve_decision. Defined.

(** A transfer of the token [tokenId] to the wallet. *)
Definition isReceipt (tokenId : string) (tx : Transaction.t) : Prop :=
  Transaction.type tx = Transaction.transfer
  ∧ Transaction.to tx = demoWallet
  ∧ Transaction.tokenId tx = Some tokenId.

(** A burn of the token [tokenId]. *)
Definition isBurn (tokenId : string) (tx : Transaction.t) : Prop :=
  Transaction.type tx = Transaction.burn
  ∧ Transaction.tokenId tx = Some tokenId.

#[global] Instance isReceipt_dec tokenId tx : Decision (isReceipt tokenId tx).
Proof. unfold isReceipt. apply _. Defined.

#[global] Instance isBurn_dec tokenId tx : Decision (isBurn tokenId tx).
Proof. unfold isBurn. apply _. Defined.

Definition received (tokenId : string) (s : State) : nat :=
  length (filter (isReceipt tokenId) (transactions s)).

Definition burned (tokenId : string) (s : State) : nat :=
  length (filter (isBurn tokenId) (transactions s)).

Definition held (tokenId : string) (s : State) : nat :=
  length (filter (λ t, Token.id t = tokenId) (ownedTokens s)).

(** The price the product table has for a product name; 0 for a name it
    does not have. *)
Definition priceByName (name : string) : Z :=
  match List.find (λ entry, String.eqb (Product.name entry.2) name) productInfo with
  | Some entry => Product.price entry.2
  | None => 0
  end.

(** The prices of the products whose transfer to the wallet is in the
    ledger. *)
Definition spent (s : State) : Z :=
  foldr (λ tx total,
           (if bool_decide (Transaction.type tx = Transaction.transfer
                            ∧ Transaction.to tx = demoWallet)
            then priceByName (Transaction.product tx) else 0) + total)
        0 (transactions s).

(** Identifiers without gaps: the counter is the number of entries and
    the entry at position [i] from the front has [counter - 1 - i]. *)
Definition dense (s : State) : Prop :=
  transactionCounter s = Z.of_nat (length (transactions s))
  ∧ ∀ i tx, transactions s !! i = Some tx →
            Transaction.id tx = Some (transactionCounter s - 1 - Z.of_nat i).

(** Tokens in the order of their lock dates, none locked for more than
    14 days from [now]. *)
Definition aging (now : Z) (s : State) : Prop :=
  StronglySorted (λ older newer,
                    Token.burnLockDate older ≤ Token.burnLockDate newer)
                 (ownedTokens s)
  ∧ Forall (λ t, Token.burnLockDate t ≤ now + 14 * dayMs) (ownedTokens s).

(** The clock never runs backwards over the operations of a session that
    starts at [start]. *)
Fixpoint chronological (start : Z) (ops : list (Z * Op)) : Prop :=
  match ops with
  | [] => True
  | (now, _) :: rest => start ≤ now ∧ chronological now rest
  end.

(** The instant of the last operation. *)
Fixpoint lastTime (start : Z) (ops : list (Z * Op)) : Z :=
  match ops with
  | [] => start
  | (now, _) :: rest => lastTime now rest
  end.

(** The session that leads to [Scenario.afterPurchase]. *)
Definition purchaseOps : list (Z * Op) :=
  [(0, OpOpenPurchaseModal "fragrance");
   (1000, OpSendPayment "0xU...rah5r");
   (5000, OpConfirmReceipt 6)].

(** The ledger entry for the receipt of a fragrance token. *)
Definition receiptEntry : Transaction.t :=
  initialTx Transaction.transfer "Éclat de Lune" "0xU...rah5r" "bc1q...demo"
            "#LUX-007" "5000" None None.

(** The text [confirmReceipt] puts after the prefix for each of the hundred
    draws. *)
Definition idSuffixes : list string :=
  (λ draw : nat, padStart0 3 (toString (Z.of_nat draw + 1))) <$> seq 0 100.

End Session.

(** ** The cache of the Scrolls API service and the hex form of its hash *)

Module Scrolls.

(** A value of [this.cache]. *)
Record CacheEntry := {
  data : value;
  timestamp : Z;
}.

(** [this.cacheTTL]. *)
Definition cacheTTL : Z := 60000.

(** What a call settles with: the data returned, or the error thrown
    through [handleError]. *)
Inductive Reply :=
| Returned (data : value)
| Thrown.

(** The text a template literal gives for a boolean. *)
Definition showBool (b : bool) : string := if b then "true" else "false".

Section Client.

(** [JSON.stringify(query)]. *)
Variable stringify : value → string.

(** [queryCharms(query)].  [now] is the clock at the cache test, [arrival]
    the clock when the answer is stored, and [response] the [response.data]
    the server gives if it is asked, [None] when the request fails. *)
Definition queryCharms (now arrival : Z) (response : option value)
    (query : value) (cache : gmap string CacheEntry)
  : Reply * gmap string CacheEntry :=
  let cacheKey := "query_" +:+ stringify query in
  let fetch :=
    match response with
    | Some answer =>
        (Returned answer,
         <[cacheKey := {| data := answer; timestamp := arrival |}]> cache)
    | None => (Thrown, cache)
    end in
  match cache !! cacheKey with
  | Some cached =>
      if now - timestamp cached <? cacheTTL then (Returned (data cached), cache)
      else fetch
  | None => fetch
  end.

(** [getCharmToken(tokenId, {includeHistory, zkProof})]. *)
Definition getCharmToken (now arrival : Z) (response : option value)
    (tokenId : string) (includeHistory zkProof : bool)
    (cache : gmap string CacheEntry)
  : Reply * gmap string CacheEntry :=
  let cacheKey :=
    "token_" +:+ tokenId +:+ "_" +:+ showBool includeHistory
      +:+ "_" +:+ showBool zkProof in
  let fetch :=
    match response with
    | Some answer =>
        (Returned answer,
         <[cacheKey := {| data := answer; timestamp := arrival |}]> cache)
    | None => (Thrown, cache)
    end in
  match cache !! cacheKey with
  | Some cached =>
      if now - timestamp cached <? cacheTTL then (Returned (data cached), cache)
      else fetch
  | None => fetch
  end.

(** [clearCache()]. *)
Definition clearCache (cache : gmap string CacheEntry)
  : gmap string CacheEntry := ∅.

End Client.

(** Reading back what [hashData] writes, two hex digits a byte: the value
    of a character is the digit [hexDigit] writes as that character. *)
Definition unhexDigit (c : ascii) : option N :=
  List.find (λ d, Ascii.eqb (Redactor.hexDigit d) c) (N.of_nat <$> seq 0 16).

Fixpoint unhex (s : string) : option (list N) :=
  match s with
  | EmptyString => Some []
  | String hi (String lo rest) =>
      match unhexDigit hi, unhexDigit lo, unhex rest with
      | Some h, Some l, Some bytes => Some ((16 * h + l)%N :: bytes)
      | _, _, _ => None
      end
  | String _ EmptyString => None
  end.

End Scrolls.

(** * Properties *)

(** ** Strings and objects *)

Module JsFacts.

(** Structural induction that reaches below arrays and objects. *)
Lemma value_ind' (P : value → Prop) :
  P VNull →
  (∀ b, P (VBool b)) →
  (∀ n, P (VNum n)) →
  (∀ s, P (VStr s)) →
  (∀ items, Forall P items → P (VArr items)) →
  (∀ entries, Forall (λ kv, P kv.2) entries → P (VObj entries)) →
  ∀ v, P v.
Proof.
  intros Hnull Hbool Hnum Hstr Harr Hobj.
  fix IH 1. intros [ | b | n | s | items | entries ].
  - exact Hnull.
  - apply Hbool.
  - apply Hnum.
  - apply Hstr.
  - apply Harr. induction items as [ | x items IHitems ]; constructor.
    + apply IH.
    + exact IHitems.
  - apply Hobj. induction entries as [ | [k x] entries IHentries ]; constructor.
    + apply IH.
    + exact IHentries.
Qed.


Lemma append_cons (c : ascii) (s t : string) :
  String c s +:+ t = String c (s +:+ t).
Proof. reflexivity. Qed.

Lemma append_nil_l (t : string) : "" +:+ t = t.
Proof. reflexivity. Qed.

Lemma append_assoc (a b c : string) : (a +:+ b) +:+ c = a +:+ (b +:+ c).
Proof.
  induction a as [ | x a IH ]; [ reflexivity | ].
  rewrite !append_cons. by rewrite IH.
Qed.

Lemma startsWith_spec (s search : string) :
  startsWith s search = true ↔ ∃ rest, s = search +:+ rest.
Proof.
  revert s. induction search as [ | a search IH ]; intros s.
  - split; [ intros _; by exists s | by destruct s ].
  - destruct s as [ | b s ]; simpl.
    + split; [ done | intros [rest Hrest]; discriminate Hrest ].
    + rewrite andb_true_iff, Ascii.eqb_eq, IH. split.
      * intros [-> [rest ->]]. by exists rest.
      * intros [rest Hrest]. rewrite append_cons in Hrest.
        injection Hrest as -> ->. eauto.
Qed.

Lemma includes_spec (s search : string) :
  includes s search = true ↔ ∃ before after, s = before +:+ search +:+ after.
Proof.
  induction s as [ | c s IH ].
  - change (includes "" search) with (startsWith "" search || false).
    rewrite orb_false_r, startsWith_spec. split.
    + intros [rest Hrest]. by exists "", rest.
    + intros [[ | x before] [after Hs]]; [ by exists after | discriminate Hs ].
  - change (includes (String c s) search)
      with (startsWith (String c s) search || includes s search).
    rewrite orb_true_iff, startsWith_spec, IH. split.
    + intros [[rest Hrest] | (before & after & ->)].
      * by exists "", rest.
      * by exists (String c before), after.
    + intros [[ | x before] [after Hs]].
      * left. by exists after.
      * right. rewrite append_cons in Hs. injection Hs as -> ->. eauto.
Qed.

(** How [toLowerCase] goes through a string: one character of up to three
    bytes at a time. *)
Lemma toLowerCase_cons (c : ascii) (rest : string) :
  toLowerCase (String c rest)
  = match rest with
    | String c1 rest1 =>
        if is_dotted_I c c1 then
          String "i" (String "204" (String "135" (toLowerCase rest1)))
        else
          match rest1 with
          | String c2 rest2 =>
              if is_kelvin c c1 c2 then String "k" (toLowerCase rest2)
              else String (lower_ascii c) (toLowerCase rest)
          | EmptyString => String (lower_ascii c) (toLowerCase rest)
          end
    | EmptyString => String (lower_ascii c) EmptyString
    end.
Proof. by destruct rest as [ | c1 [ | c2 rest2 ] ]. Qed.

Lemma isAscii_neq (c d : ascii) :
  isAscii c = true → isAscii d = false → Ascii.eqb c d = false.
Proof. intros Hc Hd. apply Ascii.eqb_neq. congruence. Qed.

Lemma is_dotted_I_ascii_l (c c1 : ascii) :
  isAscii c = true → is_dotted_I c c1 = false.
Proof.
  intros Hc. unfold is_dotted_I. by rewrite (isAscii_neq c "196" Hc).
Qed.

Lemma is_dotted_I_ascii_r (c c1 : ascii) :
  isAscii c1 = true → is_dotted_I c c1 = false.
Proof.
  intros Hc. unfold is_dotted_I.
  by rewrite (isAscii_neq c1 "176" Hc), andb_false_r.
Qed.

Lemma is_kelvin_ascii_l (c c1 c2 : ascii) :
  isAscii c = true → is_kelvin c c1 c2 = false.
Proof.
  intros Hc. unfold is_kelvin. by rewrite (isAscii_neq c "226" Hc).
Qed.

Lemma is_kelvin_ascii_m (c c1 c2 : ascii) :
  isAscii c1 = true → is_kelvin c c1 c2 = false.
Proof.
  intros Hc. unfold is_kelvin.
  by rewrite (isAscii_neq c1 "132" Hc), andb_false_r.
Qed.

Lemma is_kelvin_ascii_r (c c1 c2 : ascii) :
  isAscii c2 = true → is_kelvin c c1 c2 = false.
Proof.
  intros Hc. unfold is_kelvin.
  by rewrite (isAscii_neq c2 "170" Hc), andb_false_r.
Qed.

(** An ASCII character is lowered by itself, whatever follows it. *)
Lemma toLowerCase_ascii (c : ascii) (rest : string) :
  isAscii c = true →
  toLowerCase (String c rest) = String (lower_ascii c) (toLowerCase rest).
Proof.
  intros Hc. rewrite toLowerCase_cons.
  destruct rest as [ | c1 [ | c2 rest2 ] ]; [ done | | ].
  - by rewrite is_dotted_I_ascii_l.
  - by rewrite is_dotted_I_ascii_l, is_kelvin_ascii_l.
Qed.

(** No character reaches over an ASCII character: what comes before it is
    lowered as if the string ended there. *)
Lemma toLowerCase_before_ascii (a : string) (c : ascii) (rest : string) :
  isAscii c = true →
  toLowerCase (a +:+ String c rest)
  = toLowerCase a +:+ toLowerCase (String c rest).
Proof.
  intros Hc. remember (String.length a) as n eqn:Hn. revert a Hn.
  induction n as [ n IH ] using lt_wf_ind. intros a ->.
  destruct a as [ | x [ | y [ | z a ] ] ].
  - reflexivity.
  - rewrite !append_cons, append_nil_l.
    rewrite (toLowerCase_cons x (String c rest)), (toLowerCase_cons x "").
    rewrite is_dotted_I_ascii_r by done.
    destruct rest as [ | c2 rest2 ]; [ done | ].
    by rewrite is_kelvin_ascii_m.
  - rewrite !append_cons, append_nil_l.
    rewrite (toLowerCase_cons x (String y (String c rest))),
      (toLowerCase_cons x (String y "")).
    destruct (is_dotted_I x y); [ done | ].
    rewrite is_kelvin_ascii_r by done.
    rewrite append_cons. f_equal.
    exact (IH (String.length (String y "")) ltac:(cbn; lia) (String y "") eq_refl).
  - rewrite !append_cons.
    rewrite (toLowerCase_cons x (String y (String z (a +:+ String c rest)))),
      (toLowerCase_cons x (String y (String z a))).
    destruct (is_dotted_I x y).
    + rewrite !append_cons. do 3 f_equal.
      exact (IH (String.length (String z a)) ltac:(cbn; lia) (String z a) eq_refl).
    + destruct (is_kelvin x y z).
      * rewrite append_cons. f_equal.
        exact (IH (String.length a) ltac:(cbn; lia) a eq_refl).
      * rewrite append_cons. f_equal.
        exact (IH (String.length (String y (String z a))) ltac:(cbn; lia) (String y (String z a)) eq_refl).
Qed.

Lemma toLowerCase_ascii_text (m rest : string) :
  isAsciiText m = true →
  toLowerCase (m +:+ rest) = toLowerCase m +:+ toLowerCase rest.
Proof.
  induction m as [ | c m IH ]; [ done | ].
  cbn [isAsciiText]. intros [Hc Hm]%andb_true_iff.
  rewrite append_cons, !toLowerCase_ascii by done.
  by rewrite append_cons, IH.
Qed.

(** ASCII text that is in a string is, lowered, in the lowered string. *)
Lemma includes_toLowerCase (s search : string) :
  isAsciiText search = true →
  includes s search = true →
  includes (toLowerCase s) (toLowerCase search) = true.
Proof.
  intros Hascii. rewrite !includes_spec. intros (before & after & ->).
  destruct search as [ | c m ].
  - by exists "", (toLowerCase (before +:+ "" +:+ after)).
  - exists (toLowerCase before), (toLowerCase after).
    cbn [isAsciiText] in Hascii. apply andb_true_iff in Hascii as [Hc Hm].
    rewrite append_cons, toLowerCase_before_ascii by done.
    rewrite <- append_cons. by rewrite toLowerCase_ascii_text by (cbn; by rewrite Hc).
Qed.

Lemma set_proto v entries : Js.set "__proto__" v entries = entries.
Proof. reflexivity. Qed.

Lemma set_put key v entries :
  key ≠ "__proto__" → Js.set key v entries = Js.put key v entries.
Proof.
  intros Hkey. unfold Js.set.
  by destruct (String.eqb_spec key "__proto__").
Qed.

Lemma put_elem_of key v entries kv :
  kv ∈ Js.put key v entries → kv = (key, v) ∨ kv ∈ entries.
Proof.
  induction entries as [ | [k w] entries IH ]; simpl.
  - intros ->%list_elem_of_singleton. by left.
  - destruct (String.eqb_spec k key) as [-> | Hne].
    + intros [-> | Hin]%elem_of_cons; [ by left | right; by right ].
    + intros [-> | Hin]%elem_of_cons; [ right; by left | ].
      destruct (IH Hin) as [-> | Hin']; [ by left | right; by right ].
Qed.

Lemma set_elem_of key v entries kv :
  kv ∈ Js.set key v entries →
  (key ≠ "__proto__" ∧ kv = (key, v)) ∨ kv ∈ entries.
Proof.
  unfold Js.set. destruct (String.eqb_spec key "__proto__") as [-> | Hkey].
  - by right.
  - intros [-> | Hin]%put_elem_of; [ by left | by right ].
Qed.

Lemma put_fresh key v entries :
  key ∉ entries.*1 → Js.put key v entries = entries ++ [(key, v)].
Proof.
  induction entries as [ | [k w] entries IH ]; simpl; [ done | ].
  intros Hnot. apply not_elem_of_cons in Hnot as [Hne Hnot].
  destruct (String.eqb_spec k key) as [-> | _]; [ done | ].
  by rewrite IH.
Qed.

Lemma set_fresh key v entries :
  key ≠ "__proto__" → key ∉ entries.*1 →
  Js.set key v entries = entries ++ [(key, v)].
Proof. intros Hkey Hnot. rewrite set_put by done. by apply put_fresh. Qed.

Lemma put_same key v entries :
  Js.get key entries = Some v → Js.put key v entries = entries.
Proof.
  induction entries as [ | [k w] entries IH ]; simpl; [ done | ].
  destruct (String.eqb_spec k key) as [-> | _].
  - by intros [= ->].
  - intros Hget. by rewrite IH.
Qed.

Lemma set_same key v entries :
  Js.get key entries = Some v → Js.set key v entries = entries.
Proof.
  intros Hget. unfold Js.set.
  destruct (String.eqb key "__proto__"); [ done | by apply put_same ].
Qed.

Lemma put_keys key v entries :
  (Js.put key v entries).*1
  = if bool_decide (key ∈ entries.*1) then entries.*1 else entries.*1 ++ [key].
Proof.
  induction entries as [ | [k w] entries IH ]; [ done | ].
  cbn [Js.put]. destruct (String.eqb_spec k key) as [-> | Hne].
  - rewrite bool_decide_eq_true_2; [ done | by left ].
  - rewrite fmap_cons, IH. cbn [fst].
    destruct (bool_decide (key ∈ entries.*1)) eqn:Hin.
    + apply bool_decide_eq_true_1 in Hin.
      rewrite bool_decide_eq_true_2; [ done | by right ].
    + apply bool_decide_eq_false_1 in Hin.
      rewrite bool_decide_eq_false_2; [ done | ].
      by intros [? | ?]%elem_of_cons.
Qed.

Lemma set_keys key v entries :
  key ≠ "__proto__" →
  (Js.set key v entries).*1
  = if bool_decide (key ∈ entries.*1) then entries.*1 else entries.*1 ++ [key].
Proof. intros Hkey. rewrite set_put by done. apply put_keys. Qed.

Lemma set_NoDup key v entries :
  NoDup entries.*1 → NoDup (Js.set key v entries).*1.
Proof.
  intros Hnodup. unfold Js.set.
  destruct (String.eqb key "__proto__"); [ done | ].
  rewrite put_keys.
  destruct (bool_decide (key ∈ entries.*1)) eqn:Hin; [ done | ].
  apply bool_decide_eq_false_1 in Hin.
  apply NoDup_app. split_and!; [ done | | apply NoDup_singleton ].
  by intros k Hk ->%list_elem_of_singleton.
Qed.

Lemma get_put_ne key other v entries :
  other ≠ key → Js.get other (Js.put key v entries) = Js.get other entries.
Proof.
  intros Hne. induction entries as [ | [k w] entries IH ]; cbn.
  - destruct (String.eqb_spec key other); [ congruence | done ].
  - destruct (String.eqb_spec k key) as [-> | Hk]; cbn.
    + destruct (String.eqb_spec key other); [ congruence | done ].
    + by rewrite IH.
Qed.

Lemma get_set_ne key other v entries :
  other ≠ key → Js.get other (Js.set key v entries) = Js.get other entries.
Proof.
  intros Hne. unfold Js.set.
  destruct (String.eqb key "__proto__"); [ done | by apply get_put_ne ].
Qed.

Lemma get_elem_of key v entries :
  Js.get key entries = Some v → (key, v) ∈ entries.
Proof.
  induction entries as [ | [k w] entries IH ]; cbn; [ done | ].
  destruct (String.eqb_spec k key) as [-> | _].
  - intros [= ->]. by left.
  - intros Hget. right. by apply IH.
Qed.

Lemma get_keys key v entries :
  Js.get key entries = Some v → key ∈ entries.*1.
Proof.
  intros Hget%get_elem_of. apply list_elem_of_fmap. by exists (key, v).
Qed.

Lemma get_None key entries :
  key ∉ entries.*1 → Js.get key entries = None.
Proof.
  induction entries as [ | [k w] entries IH ]; cbn; [ done | ].
  intros [Hne Hnot]%not_elem_of_cons.
  destruct (String.eqb_spec k key) as [-> | _]; [ done | by apply IH ].
Qed.

(** In an object with distinct names, every entry is found under its name. *)
Lemma get_NoDup key v entries :
  NoDup entries.*1 → (key, v) ∈ entries → Js.get key entries = Some v.
Proof.
  induction entries as [ | [k w] entries IH ]; cbn; [ by intros _ ?%elem_of_nil | ].
  intros [Hfresh Hnodup]%NoDup_cons [[= -> ->] | Hin]%elem_of_cons.
  - by rewrite String.eqb_refl.
  - destruct (String.eqb_spec k key) as [-> | _]; [ | by apply IH ].
    destruct Hfresh. apply list_elem_of_fmap. by exists (key, v).
Qed.

End JsFacts.

(** ** The privacy redactor *)

Module RedactorFacts.
Import JsFacts Redactor Scenario.

Lemma loweredPatterns_eq : map toLowerCase sensitiveFields = loweredPatterns.
Proof. reflexivity. Qed.

Lemma isSensitiveField_spec (name : string) :
  isSensitiveField name = true ↔
  ∃ pattern, pattern ∈ loweredPatterns
             ∧ includes (toLowerCase name) pattern = true.
Proof.
  unfold isSensitiveField. rewrite existsb_exists.
  rewrite <- loweredPatterns_eq. split.
  - intros (sensitive & Hin & Hinc). exists (toLowerCase sensitive). split.
    + apply list_elem_of_fmap. exists sensitive. split; [ done | ].
      by apply list_elem_of_In.
    + done.
  - intros (pattern & Hin & Hinc).
    apply list_elem_of_fmap in Hin as (sensitive & -> & Hin).
    exists sensitive. split; [ by apply list_elem_of_In | done ].
Qed.

Lemma extractPublicData_primitive (data : value) :
  is_primitive data = true → extractPublicData data = data.
Proof. by destruct data. Qed.

Lemma extractPublicData_object entries :
  extractPublicData (VObj entries) = VObj (rebuild entries []).
Proof. reflexivity. Qed.

Lemma rebuild_elem_of entries publicData kv' :
  kv' ∈ rebuild entries publicData →
  kv' ∈ publicData
  ∨ ∃ kv, kv ∈ entries ∧ kv.1 ≠ "__proto__" ∧ kv' = publicEntry kv.
Proof.
  revert publicData. induction entries as [ | kv entries IH ]; intros acc; simpl.
  - by left.
  - intros Hin. destruct (IH _ Hin) as [Hset | (kv0 & Hkv0 & Hown & ->)].
    + apply set_elem_of in Hset as [[Hown ->] | Hacc]; [ | by left ].
      right. exists kv. split_and!; [ by left | done | done ].
    + right. exists kv0. split_and!; [ by right | done | done ].
Qed.

Lemma filter_all {A} (P : A → Prop) `{∀ x, Decision (P x)} (l : list A) :
  Forall P l → filter P l = l.
Proof.
  induction 1 as [ | x l Hx _ IH ]; [ done | ].
  by rewrite filter_cons_True, IH.
Qed.

(** The loop on an object with distinct names: every member is added after
    those that are there, but for [__proto__], which is not added. *)
Lemma rebuild_fresh entries publicData :
  NoDup (publicData.*1 ++ entries.*1) →
  rebuild entries publicData
  = publicData
    ++ map publicEntry (filter (λ kv, kv.1 ≠ "__proto__") entries).
Proof.
  revert publicData. induction entries as [ | kv entries IH ]; intros acc.
  - intros _. unfold rebuild. simpl. by rewrite app_nil_r.
  - intros Hnodup. unfold rebuild. simpl. fold (rebuild entries).
    assert (Hrest : NoDup (acc.*1 ++ entries.*1)).
    { rewrite fmap_cons in Hnodup.
      apply NoDup_app in Hnodup as (Hacc & Hdisj & [_ Hentries]%NoDup_cons).
      apply NoDup_app. split_and!; [ done | | done ].
      intros k Hk Hin. apply (Hdisj k Hk). by right. }
    destruct (decide (kv.1 = "__proto__")) as [Hproto | Hown].
    + rewrite Hproto, set_proto, filter_cons_False by (by intros ?).
      by apply IH.
    + rewrite filter_cons_True by done.
      rewrite set_fresh; [ | done | ].
      * rewrite IH.
        -- by rewrite <- app_assoc.
        -- rewrite fmap_app. simpl. rewrite <- app_assoc. exact Hnodup.
      * apply NoDup_app in Hnodup as (_ & Hdisj & _).
        intros Hin. apply (Hdisj _ Hin). by left.
Qed.

(** The public view of an object with distinct names, in one piece. *)
Lemma extractPublicData_distinct entries :
  NoDup entries.*1 →
  extractPublicData (VObj entries)
  = VObj (map publicEntry (filter (λ kv, kv.1 ≠ "__proto__") entries)).
Proof.
  intros Hnodup. rewrite extractPublicData_object.
  by rewrite (rebuild_fresh entries []).
Qed.

Lemma get_public name entries :
  Js.get name (map publicEntry (filter (λ kv, kv.1 ≠ "__proto__") entries))
  = if decide (name = "__proto__") then None
    else (λ v, (publicEntry (name, v)).2) <$> Js.get name entries.
Proof.
  induction entries as [ | [k v] entries IH ].
  - by destruct (decide (name = "__proto__")).
  - destruct (decide (k = "__proto__")) as [-> | Hown].
    + rewrite filter_cons_False by (by intros ?). rewrite IH.
      destruct (decide (name = "__proto__")) as [ | Hname ]; [ done | ].
      cbn [Js.get]. by destruct (String.eqb_spec "__proto__" name).
    + rewrite filter_cons_True by done. cbn [map Js.get publicEntry fst].
      destruct (String.eqb_spec k name) as [-> | Hne].
      * by destruct (decide (name = "__proto__")).
      * exact IH.
Qed.

Lemma distinctNames_items items :
  distinctNames (VArr items) ↔ Forall distinctNames items.
Proof.
  change (distinctNames (VArr items))
    with (fold_right (λ item rest, distinctNames item ∧ rest) True items).
  induction items as [ | item items IH ]; cbn [fold_right].
  - split; [ by constructor | done ].
  - rewrite Forall_cons, IH. done.
Qed.

Lemma distinctNames_entries entries :
  distinctNames (VObj entries)
  ↔ NoDup entries.*1 ∧ Forall (λ kv, distinctNames kv.2) entries.
Proof.
  change (distinctNames (VObj entries))
    with (NoDup entries.*1
          ∧ fold_right (λ kv rest, distinctNames kv.2 ∧ rest) True entries).
  apply and_iff_compat_l.
  induction entries as [ | kv entries IH ]; cbn [fold_right].
  - split; [ by constructor | done ].
  - rewrite Forall_cons, IH. done.
Qed.

(** A place the redactor goes through has, in the view, the redaction of
    what the source has there. *)
Lemma valueAt_copied path data original :
  distinctNames data →
  valueAt path data = Some original →
  Forall copied path →
  valueAt path (extractPublicData data) = Some (extractPublicData original)
  ∧ distinctNames original.
Proof.
  revert data. induction path as [ | step path IH ]; intros data Hdata.
  - intros [= ->] _. done.
  - intros Hat [Hstep Hpath]%Forall_cons.
    destruct step as [ name | index ], data as [ | | | | items | entries ];
      try discriminate Hat; cbn [valueAt] in Hat.
    + destruct (Js.get name entries) as [ w | ] eqn:Hget; [ | discriminate Hat ].
      apply distinctNames_entries in Hdata as [Hnodup Hdeep].
      rewrite extractPublicData_distinct by done. cbn [valueAt].
      rewrite get_public, Hget. destruct Hstep as [Hname Hown].
      destruct (decide (name = "__proto__")); [ done | ].
      cbn [fmap option_fmap option_map publicEntry fst snd]. rewrite Hname.
      apply IH; [ | done | done ].
      rewrite Forall_forall in Hdeep.
      exact (Hdeep (name, w) (get_elem_of _ _ _ Hget)).
    + destruct (items !! index) as [ w | ] eqn:Hget; [ | discriminate Hat ].
      apply distinctNames_items in Hdata.
      change (extractPublicData (VArr items))
        with (VArr (map extractPublicData items)).
      cbn [valueAt]. change (map extractPublicData items)
        with (extractPublicData <$> items).
      rewrite list_lookup_fmap, Hget. cbn [fmap option_fmap option_map].
      apply IH; [ | done | done ].
      rewrite Forall_forall in Hdata.
      by apply Hdata, (list_elem_of_lookup_2 _ index).
Qed.

(** A sensitive member of an object the redactor goes through. *)
Lemma valueAt_sensitive path name data original :
  distinctNames data →
  valueAt (path ++ [Member name]) data = Some original →
  Forall copied path →
  isSensitiveField name = true →
  valueAt (path ++ [Member name]) (extractPublicData data) = Some REDACTED.
Proof.
  intros Hdata Hat Hpath Hname.
  assert (Hsplit : ∃ parent, valueAt path data = Some parent
                             ∧ valueAt [Member name] parent = Some original).
  { clear Hdata Hpath. revert data Hat.
    induction path as [ | step path IH ]; intros data Hat; [ by exists data | ].
    destruct step as [ key | index ], data as [ | | | | items | entries ];
      try discriminate Hat; cbn [app valueAt] in Hat |- *.
    - destruct (Js.get key entries) as [ w | ]; [ by apply IH | discriminate Hat ].
    - destruct (items !! index) as [ w | ]; [ by apply IH | discriminate Hat ]. }
  destruct Hsplit as (parent & Hparent & Hmember).
  destruct (valueAt_copied path data parent Hdata Hparent Hpath)
    as [Hview Hdistinct].
  assert (Hjoin : ∀ v w, valueAt path v = Some w →
                         valueAt (path ++ [Member name]) v
                         = valueAt [Member name] w).
  { clear. induction path as [ | step path IH ]; intros v w.
    - by intros [= ->].
    - destruct step as [ key | index ], v as [ | | | | items | entries ];
        try discriminate; cbn [app valueAt].
      + destruct (Js.get key entries) as [ u | ]; [ apply IH | discriminate ].
      + destruct (items !! index) as [ u | ]; [ apply IH | discriminate ]. }
  rewrite (Hjoin _ _ Hview).
  destruct parent as [ | | | | items | entries ]; try discriminate Hmember.
  cbn [valueAt] in Hmember.
  destruct (Js.get name entries) as [ w | ] eqn:Hget; [ | discriminate Hmember ].
  apply distinctNames_entries in Hdistinct as [Hnodup _].
  rewrite extractPublicData_distinct by done. cbn [valueAt].
  rewrite get_public, Hget.
  destruct (decide (name = "__proto__")) as [-> | _]; [ discriminate Hname | ].
  cbn [fmap option_fmap option_map publicEntry fst snd]. by rewrite Hname.
Qed.

(** The view has nothing of its own: each of its places is a place of the
    source, one the redactor went through or a sensitive member of an
    object it went through. *)
Lemma valueAt_view path data shown :
  distinctNames data →
  valueAt path (extractPublicData data) = Some shown →
  ∃ original,
    valueAt path data = Some original
    ∧ ((Forall copied path ∧ shown = extractPublicData original)
       ∨ ∃ before name,
           path = before ++ [Member name]
           ∧ Forall copied before
           ∧ isSensitiveField name = true
           ∧ shown = REDACTED).
Proof.
  revert data. induction path as [ | step path IH ]; intros data Hdata.
  - intros [= <-]. exists data. split; [ done | ]. left. by split.
  - intros Hat.
    destruct step as [ name | index ], data as [ | | | | items | entries ];
      try discriminate Hat.
    + apply distinctNames_entries in Hdata as [Hnodup Hdeep].
      rewrite extractPublicData_distinct in Hat by done. cbn [valueAt] in Hat.
      rewrite get_public in Hat.
      destruct (decide (name = "__proto__")) as [ | Hown ]; [ discriminate Hat | ].
      cbn [valueAt].
      destruct (Js.get name entries) as [ w | ] eqn:Hget; [ | discriminate Hat ].
      cbn [fmap option_fmap option_map publicEntry fst snd] in Hat.
      destruct (isSensitiveField name) eqn:Hname.
      * destruct path as [ | [ ? | ? ] path ]; try discriminate Hat.
        injection Hat as <-. exists w. split; [ done | ].
        right. by exists [], name.
      * rewrite Forall_forall in Hdeep.
        destruct (IH w (Hdeep (name, w) (get_elem_of _ _ _ Hget)) Hat)
          as (original & Horiginal & Hcase).
        exists original. split; [ done | ].
        destruct Hcase as [[Hpath ->] | (before & key & -> & Hbefore & Hkey & ->)].
        -- left. split; [ | done ]. by constructor.
        -- right. exists (Member name :: before), key.
           split_and!; [ done | by constructor | done | done ].
    + apply distinctNames_items in Hdata.
      change (extractPublicData (VArr items))
        with (VArr (extractPublicData <$> items)) in Hat.
      cbn [valueAt] in Hat |- *. rewrite list_lookup_fmap in Hat.
      destruct (items !! index) as [ w | ] eqn:Hget; [ | discriminate Hat ].
      cbn [fmap option_fmap option_map] in Hat.
      rewrite Forall_forall in Hdata.
      destruct (IH w (Hdata w (list_elem_of_lookup_2 _ index _ Hget)) Hat)
        as (original & Horiginal & Hcase).
      exists original. split; [ done | ].
      destruct Hcase as [[Hpath ->] | (before & key & -> & Hbefore & Hkey & ->)].
      * left. split; [ | done ]. by constructor.
      * right. exists (Element index :: before), key.
        split_and!; [ done | by constructor | done | done ].
Qed.

Ltac elem_of_list :=
  repeat first [ apply list_elem_of_here | apply list_elem_of_further ].

Ltac not_elem_of_list H :=
  repeat (apply elem_of_cons in H as [H | H]; [ discriminate H | ]);
  by apply elem_of_nil in H.

(** C5, as stated, fails on [sampleEvents]: the public view still has the
    field named [from_address], which matches the sensitive set, and the
    value shown under the non-sensitive name [details] is not the value
    [details] has in the source. *)
Lemma public_view_keeps_sensitive_names :
  ¬ (∀ key shown,
       (key, shown) ∈ fields (extractPublicData sampleEvents) →
       isSensitiveField key = false)
  ∧ ¬ (∀ key shown,
         (key, shown) ∈ fields (extractPublicData sampleEvents) →
         isSensitiveField key = false →
         (key, shown) ∈ fields sampleEvents).
Proof.
  split.
  - intros Hclaim.
    specialize (Hclaim "from_address" REDACTED). discriminate Hclaim.
    vm_compute. elem_of_list.
  - intros Hclaim.
    specialize
      (Hclaim "details"
         (VObj [("email", REDACTED); ("note", VStr "ok")])).
    assert (Hin : ("details", VObj [("email", REDACTED); ("note", VStr "ok")])
                  ∈ fields sampleEvents).
    { apply Hclaim; [ vm_compute; elem_of_list | reflexivity ]. }
    vm_compute in Hin. not_elem_of_list Hin.
Qed.

(** C5, amended: the public view keeps the shape of the source, whose
    objects have distinct member names.  At a place the redactor goes
    through (no member name on the way is sensitive or is [__proto__]) the
    view holds the redaction of what the source holds at that very place:
    the identical value when that is a primitive, an array of the same
    length when it is an array, an object with the same member names in the
    same order, less [__proto__], when it is an object.  A member with a
    sensitive name stays in the view under its name and holds
    ['[REDACTED]'] in the place of its value.  And the view has nothing
    else: each of its places is one of these two kinds. *)
Theorem public_view_fields
    (events : value) (path : list Step) (name : string) :
  distinctNames events →
  (∀ original,
     valueAt path events = Some original →
     Forall copied path →
     valueAt path (extractPublicData events) = Some (extractPublicData original)
     ∧ (is_primitive original = true → extractPublicData original = original)
     ∧ (∀ items, original = VArr items →
          ∃ shown, extractPublicData original = VArr shown
                   ∧ length shown = length items)
     ∧ (∀ entries, original = VObj entries →
          ∃ shown, extractPublicData original = VObj shown
                   ∧ shown.*1 = filter (λ key, key ≠ "__proto__") entries.*1))
  ∧ (∀ original,
       valueAt (path ++ [Member name]) events = Some original →
       Forall copied path →
       isSensitiveField name = true →
       valueAt (path ++ [Member name]) (extractPublicData events)
         = Some (VStr "[REDACTED]"))
  ∧ (∀ shown,
       valueAt path (extractPublicData events) = Some shown →
       ∃ original,
         valueAt path events = Some original
         ∧ ((Forall copied path ∧ shown = extractPublicData original)
            ∨ ∃ before sensitive,
                path = before ++ [Member sensitive]
                ∧ Forall copied before
                ∧ isSensitiveField sensitive = true
                ∧ shown = VStr "[REDACTED]")).
Proof.
  intros Hevents. split_and!.
  - intros original Hat Hpath.
    destruct (valueAt_copied path events original Hevents Hat Hpath)
      as [Hview Hdistinct].
    split_and!; [ done | apply extractPublicData_primitive | | ].
    + intros items ->. eexists. split; [ reflexivity | ].
      by rewrite length_map.
    + intros entries ->.
      apply distinctNames_entries in Hdistinct as [Hnodup _].
      eexists. split; [ by apply extractPublicData_distinct | ].
      clear. induction entries as [ | [k v] entries IH ]; [ done | ].
      rewrite fmap_cons. cbn [fst].
      destruct (decide (k ≠ "__proto__")) as [Hown | Hproto].
      * rewrite !filter_cons_True by done. cbn [map]. rewrite fmap_cons.
        cbn [publicEntry fst]. by rewrite IH.
      * by rewrite !filter_cons_False.
  - intros original. by apply valueAt_sensitive.
  - intros shown. by apply valueAt_view.
Qed.

Lemma public_view_fields_witness :
  valueAt [Element 0; Member "details"; Member "note"]
          (extractPublicData sampleEvents)
    = Some (VStr "ok")
  ∧ valueAt [Element 0; Member "details"; Member "email"]
            (extractPublicData sampleEvents)
    = Some (VStr "[REDACTED]")
  ∧ ∃ original,
      valueAt [Element 0; Member "from_address"] sampleEvents = Some original
      ∧ ∃ before sensitive,
          [Element 0; Member "from_address"] = before ++ [Member sensitive]
          ∧ isSensitiveField sensitive = true.
Proof.
  assert (Hdistinct : distinctNames sampleEvents).
  { repeat split; apply (bool_decide_unpack _); reflexivity. }
  assert (Hdetails : Forall copied [Element 0; Member "details"]).
  { repeat constructor. discriminate. }
  split_and!.
  - destruct (public_view_fields sampleEvents
                [Element 0; Member "details"; Member "note"] "" Hdistinct)
      as (Hcopied & _ & _).
    destruct (Hcopied (VStr "ok")) as (Hview & _); [ reflexivity | | exact Hview ].
    repeat constructor; discriminate.
  - destruct (public_view_fields sampleEvents
                [Element 0; Member "details"] "email" Hdistinct)
      as (_ & Hsensitive & _).
    by apply (Hsensitive (VStr "a@b.c")).
  - destruct (public_view_fields sampleEvents
                [Element 0; Member "from_address"] "" Hdistinct)
      as (_ & _ & Hview).
    destruct (Hview (VStr "[REDACTED]")) as (original & Hat & Hcase);
      [ reflexivity | ].
    exists original. split; [ exact Hat | ].
    destruct Hcase as [[Hpath _] | (before & sensitive & Hsplit & _ & Hname & _)].
    + apply Forall_cons in Hpath as [_ Hpath].
      apply Forall_cons in Hpath as [[Hname _] _]. discriminate Hname.
    + by exists before, sensitive.
Defined.

(** C10: a name is sensitive exactly when its lower-case form contains one
    of the nine patterns, so every name containing [address] is; an object
    is rebuilt entry by entry, a sensitive entry getting ['[REDACTED]']
    whatever its value is and any other entry the redaction of its value,
    an entry named [__proto__] leaving no member behind; an array is
    redacted element by element. *)
Theorem sensitive_field_rule
    (name : string) (entries : list (string * value)) (items : list value) :
  (isSensitiveField name = true ↔
   ∃ pattern,
     pattern ∈ ["privatekey"; "secret"; "password"; "pin"; "address";
                "email"; "phone"; "ssn"; "dob"]
     ∧ includes (toLowerCase name) pattern = true)
  ∧ (includes name "address" = true → isSensitiveField name = true)
  ∧ (NoDup entries.*1 →
     extractPublicData (VObj entries) =
     VObj (map (λ kv, (kv.1, if isSensitiveField kv.1 then VStr "[REDACTED]"
                             else extractPublicData kv.2))
               (filter (λ kv, kv.1 ≠ "__proto__") entries)))
  ∧ extractPublicData (VArr items) = VArr (map extractPublicData items).
Proof.
  split_and!.
  - apply isSensitiveField_spec.
  - intros Hinc. apply isSensitiveField_spec. exists "address". split.
    + elem_of_list.
    + by apply (includes_toLowerCase name "address").
  - apply extractPublicData_distinct.
  - reflexivity.
Qed.

Lemma sensitive_field_rule_witness :
  isSensitiveField "from_address" = true
  ∧ isSensitiveField "PRIVATEKEY" = true
  ∧ isSensitiveField "privateKey" = true
  ∧ extractPublicData
      (VObj [("email", VObj [("work", VStr "a@b.c")]);
             ("__proto__", VObj [("kind", VStr "beam")]);
             ("meta", VObj [("pin", VNum 0); ("kind", VStr "mint")])])
    = VObj [("email", VStr "[REDACTED]");
            ("meta", VObj [("pin", VStr "[REDACTED]"); ("kind", VStr "mint")])].
Proof.
  destruct
    (sensitive_field_rule "from_address"
       [("email", VObj [("work", VStr "a@b.c")]);
        ("__proto__", VObj [("kind", VStr "beam")]);
        ("meta", VObj [("pin", VNum 0); ("kind", VStr "mint")])] [])
    as (_ & Haddress & Hobject & _).
  split_and!.
  - apply Haddress. reflexivity.
  - apply (proj1 (sensitive_field_rule "PRIVATEKEY" [] [])).
    exists "privatekey". split; [ apply list_elem_of_here | reflexivity ].
  - apply (proj1 (sensitive_field_rule "privateKey" [] [])).
    exists "privatekey". split; [ apply list_elem_of_here | reflexivity ].
  - rewrite Hobject; [ reflexivity | ].
    apply (bool_decide_unpack _). reflexivity.
Defined.

Section Fallback.

Variable encodeJson : value → list N.
Variable generateProof : string → value → option ProofBundle.

(** C4, amended: when the prover fails, [applyPrivacyShield] resolves to
    the very data it was given and writes one warning to the console;
    [getSupplyChainHistory] then resolves to the response as the server
    sent it.  No flag is added: the warning is the only trace. *)
Theorem shield_fallback_is_input (data : value) :
  generateProof (hashData encodeJson data) data = None →
  applyPrivacyShield encodeJson generateProof data
    = (data, [fallbackWarning])
  ∧ ∀ entries,
      Js.get "history" entries = Some data →
      truthy data = true →
      getSupplyChainHistory encodeJson generateProof true
                            (Some (VObj entries))
      = Resolved (VObj entries) [fallbackWarning].
Proof.
  intros Hfail.
  assert (Hshield : applyPrivacyShield encodeJson generateProof data
                    = (data, [fallbackWarning])).
  { unfold applyPrivacyShield. by rewrite Hfail. }
  split; [ exact Hshield | ].
  intros entries Hget Htruthy. unfold getSupplyChainHistory.
  rewrite Hget, Htruthy, Hshield. simpl. by rewrite set_same.
Qed.

End Fallback.

Lemma shield_fallback_is_input_witness :
  applyPrivacyShield (λ _, []) proverDown sampleHistory
    = (sampleHistory, [fallbackWarning])
  ∧ getSupplyChainHistory (λ _, []) proverDown true (Some (VObj sampleResponse))
    = Resolved (VObj sampleResponse) [fallbackWarning].
Proof.
  destruct (shield_fallback_is_input (λ _, []) proverDown sampleHistory)
    as [Hshield Hresponse]; [ reflexivity | ].
  split; [ exact Hshield | ].
  apply Hresponse; reflexivity.
Defined.

(** C4, as stated, fails with the prover down: what the shield resolves to
    has no member [privacyApplied], and neither has the response of
    [getSupplyChainHistory], which even keeps the [privacy_applied: true]
    the server put there. *)
Lemma shield_fallback_sets_no_flag :
  member "privacyApplied"
         (applyPrivacyShield (λ _, []) proverDown sampleHistory).1
    ≠ Some (VBool false)
  ∧ ∃ response,
      getSupplyChainHistory (λ _, []) proverDown true (Some (VObj sampleResponse))
        = Resolved response [fallbackWarning]
      ∧ member "privacyApplied" response ≠ Some (VBool false)
      ∧ member "privacy_applied" response = Some (VBool true)
      ∧ member "history" response = Some sampleHistory.
Proof.
  split; [ discriminate | ].
  exists (VObj sampleResponse). split_and!; [ reflexivity | discriminate | reflexivity | reflexivity ].
Qed.

End RedactorFacts.

(** ** The demo page *)

Module AppFacts.
Import App Scenario.

Section Session.

Context {locale : Locale}.

(** *** The ledger *)

Lemma addTransaction_ok now tx s :
  ledger_ok s → ledger_ok (addTransaction now tx s).
Proof.
  intros (Hpos & ids & Hids & Hsorted & Hbound).
  split; [ cbn [transactionCounter addTransaction]; lia | ].
  exists (transactionCounter s :: ids). split_and!.
  - cbn [transactions addTransaction]. rewrite !fmap_cons. by rewrite Hids.
  - constructor; [ done | ].
    eapply Forall_impl; [ exact Hbound | ]. simpl. lia.
  - cbn [transactionCounter addTransaction]. constructor; [ lia | ].
    eapply Forall_impl; [ exact Hbound | ]. simpl. lia.
Qed.

Lemma ledger_ok_ext s s' :
  transactions s' = transactions s →
  transactionCounter s' = transactionCounter s →
  ledger_ok s → ledger_ok s'.
Proof. unfold ledger_ok. by intros -> ->. Qed.

(** What an operation does to the ledger: nothing, or one new entry in
    front, stamped with the counter. *)
Lemma run_ledger now op s :
  (transactions (run now op s).1 = transactions s
   ∧ transactionCounter (run now op s).1 = transactionCounter s)
  ∨ ∃ tx, transactions (run now op s).1
            = Transaction.stamp (transactionCounter s)
                (getCurrentTimestamp now) tx
              :: transactions s
          ∧ transactionCounter (run now op s).1 = transactionCounter s + 1.
Proof.
  destruct op as [ productType | | address | draw | tokenId | | tokenId confirmed ];
    cbn [run].
  - left. unfold openPurchaseModal.
    destruct (productOf (Some productType)) as [ product | ]; [ | done ].
    by destruct (balance s <? Product.price product).
  - by left.
  - unfold sendPayment.
    destruct (productOf (currentProduct s)) as [ product | ]; [ | by left ].
    unfold verifyRetailerAddress.
    destruct (negb (bool_decide (address ∈ trustedAddresses)));
      [ by left | right; eauto ].
  - unfold confirmReceipt.
    destruct (productOf (currentProduct s)) as [ product | ]; [ | by left ].
    right. cbn. eauto.
  - left. unfold showTokenDetails.
    by destruct (list_find _ (ownedTokens s)) as [ [? ?] | ].
  - by left.
  - unfold burnToken.
    destruct (list_find _ (ownedTokens s)) as [ [tokenIndex token] | ];
      [ | by left ].
    destruct (now <? Token.burnLockDate token); [ by left | ].
    destruct confirmed; [ right; cbn; eauto | by left ].
Qed.

Lemma run_ok now op s : ledger_ok s → ledger_ok (run now op s).1.
Proof.
  intros Hok.
  destruct (run_ledger now op s) as [[Htx Hctr] | (tx & Htx & Hctr)].
  - by apply (ledger_ok_ext s).
  - apply (ledger_ok_ext (addTransaction now tx s)); [ done | done | ].
    by apply addTransaction_ok.
Qed.

Lemma loaded_ok now : ledger_ok (loaded now).
Proof.
  split; [ done | ]. exists [7; 6; 5; 4; 3; 2; 1; 0]. split_and!.
  - reflexivity.
  - repeat (constructor; [ | repeat (constructor; [ lia | ]); constructor ]).
    constructor.
  - repeat (constructor; [ simpl; lia | ]). constructor.
Qed.

Lemma runAll_ok ops s : ledger_ok s → ledger_ok (runAll ops s).
Proof.
  revert s. induction ops as [ | [now op] ops IH ]; intros s Hok; [ done | ].
  simpl. apply IH. by apply run_ok.
Qed.

Lemma reachable_ok s : reachable s → ledger_ok s.
Proof. intros (now & ops & ->). apply runAll_ok, loaded_ok. Qed.

Lemma ledger_ok_elem_of s tx :
  ledger_ok s → tx ∈ transactions s →
  ∃ i, Transaction.id tx = Some i ∧ 0 ≤ i < transactionCounter s.
Proof.
  intros (_ & ids & Hids & _ & Hbound) Hin.
  assert (Hid : Transaction.id tx ∈ Some <$> ids).
  { rewrite <- Hids. by apply list_elem_of_fmap_2. }
  apply list_elem_of_fmap in Hid as (i & Hi & Hin').
  exists i. split; [ done | ].
  rewrite Forall_forall in Hbound. by apply Hbound.
Qed.

(** C9: an operation leaves every entry of the ledger where and as it was
    and puts what it adds in front; an added entry has an identifier above
    those of all entries that were there, and the identifiers of the whole
    ledger stay strictly decreasing from the newest entry to the oldest. *)
Theorem ledger_append_only (s : State) (now : Z) (op : Op) :
  reachable s →
  ∃ added,
    transactions (run now op s).1 = added ++ transactions s
    ∧ (∀ new old, new ∈ added → old ∈ transactions s →
         ∃ i j, Transaction.id new = Some i ∧ Transaction.id old = Some j
                ∧ j < i)
    ∧ ∃ ids, Transaction.id <$> transactions (run now op s).1 = Some <$> ids
             ∧ StronglySorted (λ newer older, older < newer) ids.
Proof.
  intros Hreach. pose proof (reachable_ok s Hreach) as Hok.
  pose proof (run_ok now op s Hok) as (_ & ids & Hids & Hsorted & _).
  destruct (run_ledger now op s) as [[Htx _] | (tx & Htx & _)].
  - exists []. split_and!; [ done | | eauto ].
    by intros new old ?%elem_of_nil.
  - exists [Transaction.stamp (transactionCounter s) (getCurrentTimestamp now) tx].
    split_and!; [ done | | eauto ].
    intros new old ->%list_elem_of_singleton Hold.
    destruct (ledger_ok_elem_of s old Hok Hold) as (j & Hj & Hlt).
    exists (transactionCounter s), j. split_and!; [ done | done | lia ].
Qed.

(** *** Burning *)

Lemma burnToken_not_owned now confirmed tokenId s :
  tokenId ∉ ownedIds s →
  burnToken now confirmed tokenId s = (s, [AlertTokenNotFound]).
Proof.
  intros Hnot. unfold burnToken.
  destruct (list_find _ (ownedTokens s)) as [ [i token] | ] eqn:Hfind; [ | done ].
  apply list_find_Some in Hfind as (Hi & Hid & _). destruct Hnot.
  apply list_elem_of_fmap. exists token. split; [ done | ].
  by eapply list_elem_of_lookup_2.
Qed.

Lemma showTokenDetails_not_owned tokenId s :
  tokenId ∉ ownedIds s →
  showTokenDetails tokenId s = (s, [AlertTokenNotFound]).
Proof.
  intros Hnot. unfold showTokenDetails.
  destruct (list_find _ (ownedTokens s)) as [ [i token] | ] eqn:Hfind; [ | done ].
  apply list_find_Some in Hfind as (Hi & Hid & _). destruct Hnot.
  apply list_elem_of_fmap. exists token. split; [ done | ].
  by eapply list_elem_of_lookup_2.
Qed.


Lemma burnToken_unlocked now tokenId tokenIndex token s :
  list_find (λ t, Token.id t = tokenId) (ownedTokens s)
    = Some (tokenIndex, token) →
  Token.burnLockDate token ≤ now →
  ∃ s' entry,
    burnToken now true tokenId s = (s', [AlertTokenBurned tokenId])
    ∧ ownedTokens s' = delete tokenIndex (ownedTokens s)
    ∧ transactions s' = entry :: transactions s
    ∧ burnEntry tokenId token entry.
Proof.
  intros Hfind Hle. unfold burnToken. rewrite Hfind.
  rewrite (proj2 (Z.ltb_ge _ _) Hle). cbn [negb].
  eexists _, _. split_and!; [ reflexivity | reflexivity | reflexivity | ].
  by repeat split.
Qed.

(** An operation keeps the owned tokens as they are, removes one, or adds
    the one just received, locked for 14 days from now. *)
Lemma run_owned now op s t :
  t ∈ ownedTokens (run now op s).1 →
  t ∈ ownedTokens s
  ∨ (assigns op s = Some (Token.id t)
     ∧ Token.burnLockDate t = now + 14 * dayMs).
Proof.
  destruct op as [ productType | | address | draw | tokenId | | tokenId confirmed ];
    cbn [run assigns].
  - unfold openPurchaseModal.
    destruct (productOf (Some productType)) as [ product | ]; [ | by left ].
    destruct (balance s <? Product.price product); by left.
  - by left.
  - unfold sendPayment.
    destruct (productOf (currentProduct s)) as [ product | ]; [ | by left ].
    unfold verifyRetailerAddress.
    destruct (negb (bool_decide (address ∈ trustedAddresses))); by left.
  - unfold confirmReceipt.
    destruct (productOf (currentProduct s)) as [ product | ]; [ | by left ].
    cbn. intros [Hold | Hnew%list_elem_of_singleton]%elem_of_app; [ by left | ].
    right. by subst t.
  - unfold showTokenDetails.
    destruct (list_find _ (ownedTokens s)) as [ [? ?] | ]; by left.
  - by left.
  - unfold burnToken.
    destruct (list_find _ (ownedTokens s)) as [ [tokenIndex token] | ];
      [ | by left ].
    destruct (now <? Token.burnLockDate token); [ by left | ].
    destruct confirmed; [ | by left ].
    cbn. intros Hin%list_elem_of_delete_inv. by left.
Qed.

(** An operation that does not hand out [tokenId] adds no entry for it
    while it is not owned, and leaves it not owned. *)
Lemma run_not_owned now op tokenId s :
  tokenId ∉ ownedIds s →
  assigns op s ≠ Some tokenId →
  (tokenId ∉ ownedIds (run now op s).1)
  ∧ eventsFor tokenId (run now op s).1 = eventsFor tokenId s.
Proof.
  intros Hnot Havoid. split.
  - intros (t & Hid & Hin)%list_elem_of_fmap.
    destruct (run_owned now op s t Hin) as [Hold | [Hnew _]].
    + apply Hnot, list_elem_of_fmap. eauto.
    + apply Havoid. by rewrite Hnew, Hid.
  - unfold eventsFor.
    destruct op as [ productType | | address | draw | tokenId' | | tokenId' confirmed ];
      cbn [run assigns] in *.
    + unfold openPurchaseModal.
      destruct (productOf (Some productType)) as [ product | ]; [ | done ].
      by destruct (balance s <? Product.price product).
    + done.
    + unfold sendPayment.
      destruct (productOf (currentProduct s)) as [ product | ]; [ | done ].
      unfold verifyRetailerAddress.
      destruct (negb (bool_decide (address ∈ trustedAddresses))); [ done | ].
      cbn [fst transactions addTransaction]. by rewrite filter_cons_False.
    + unfold confirmReceipt.
      destruct (productOf (currentProduct s)) as [ product | ]; [ | done ].
      cbn [fst transactions closeModal addTransaction].
      rewrite filter_cons_False; [ done | ].
      cbn. intros [= Heq]. apply Havoid. cbn. by rewrite Heq.
    + unfold showTokenDetails.
      by destruct (list_find _ (ownedTokens s)) as [ [? ?] | ].
    + done.
    + destruct (decide (tokenId' = tokenId)) as [-> | Hne].
      { by rewrite burnToken_not_owned. }
      unfold burnToken.
      destruct (list_find _ (ownedTokens s)) as [ [tokenIndex token] | ];
        [ | done ].
      destruct (now <? Token.burnLockDate token); [ done | ].
      destruct confirmed; [ | done ].
      cbn [negb fst transactions withTokens addTransaction].
      rewrite filter_cons_False; [ done | ].
      cbn. by intros [= Heq].
Qed.

Lemma runAll_not_owned ops tokenId s :
  tokenId ∉ ownedIds s →
  avoids tokenId ops s →
  (tokenId ∉ ownedIds (runAll ops s))
  ∧ eventsFor tokenId (runAll ops s) = eventsFor tokenId s.
Proof.
  revert s. induction ops as [ | [now op] ops IH ]; intros s Hnot Havoid;
    [ done | ].
  destruct Havoid as [Hop Hrest].
  destruct (run_not_owned now op tokenId s Hnot Hop) as [Hnot' Hevents].
  destruct (IH _ Hnot' Hrest) as [Hfinal Hevents']. cbn [runAll].
  split; [ done | congruence ].
Qed.



(** C2, amended: in a session that asks for ordinary product types only,
    when the id is held by one owned token only and the burn of that token
    has gone through, then for as long as no newly received token is given
    the same id, the ledger gets no further entry for the id and every
    further burn attempt on it is answered with "Token not found." and
    changes nothing. *)
Theorem burned_token_is_gone
    (s : State) (tokenId : string) (tokenIndex : nat) (token : Token.t)
    (now : Z) (ops : list (Z * Op)) :
  list_find (λ t, Token.id t = tokenId) (ownedTokens s)
    = Some (tokenIndex, token) →
  tokenId ∉ Token.id <$> delete tokenIndex (ownedTokens s) →
  Token.burnLockDate token ≤ now →
  (∀ productType, currentProduct s = Some productType → ordinary productType) →
  ordinarySession ops →
  ∃ burned,
    burnToken now true tokenId s = (burned, [AlertTokenBurned tokenId])
    ∧ (avoids tokenId ops burned →
       eventsFor tokenId (runAll ops burned) = eventsFor tokenId burned
       ∧ ∀ later confirmed,
           burnToken later confirmed tokenId (runAll ops burned)
             = (runAll ops burned, [AlertTokenNotFound])).
Proof.
  intros Hfind Honce Hle _ _.
  destruct (burnToken_unlocked now tokenId tokenIndex token s Hfind Hle)
    as (burned & entry & Hburn & Howned & _ & _).
  exists burned. split; [ done | ]. intros Havoid.
  assert (Hnot : tokenId ∉ ownedIds burned).
  { unfold ownedIds. by rewrite Howned. }
  destruct (runAll_not_owned ops tokenId burned Hnot Havoid) as [Hfinal Hevents].
  split; [ done | ]. intros later confirmed.
  by apply burnToken_not_owned.
Qed.

(** C3, amended: a burn that goes through deletes the token from the
    owned-token collection, which gets one element shorter; what stays is
    the burn entry at the front of the ledger, with the token's id and
    product; and when no other owned token has the id, [showTokenDetails]
    answers "Token not found." from then on. *)
Theorem burn_removes_token
    (s : State) (tokenId : string) (tokenIndex : nat) (token : Token.t)
    (now : Z) :
  list_find (λ t, Token.id t = tokenId) (ownedTokens s)
    = Some (tokenIndex, token) →
  Token.burnLockDate token ≤ now →
  ∃ s' entry,
    burnToken now true tokenId s = (s', [AlertTokenBurned tokenId])
    ∧ ownedTokens s' = delete tokenIndex (ownedTokens s)
    ∧ S (length (ownedTokens s')) = length (ownedTokens s)
    ∧ transactions s' = entry :: transactions s
    ∧ burnEntry tokenId token entry
    ∧ (tokenId ∉ Token.id <$> delete tokenIndex (ownedTokens s) →
       showTokenDetails tokenId s' = (s', [AlertTokenNotFound])).
Proof.
  intros Hfind Hle.
  destruct (burnToken_unlocked now tokenId tokenIndex token s Hfind Hle)
    as (s' & entry & Hburn & Howned & Hledger & Hentry).
  exists s', entry. split_and!; try done.
  - rewrite Howned, length_delete.
    + apply list_find_Some in Hfind as (Hi%lookup_lt_Some & _). lia.
    + apply list_find_Some in Hfind as (Hi & _). eauto.
  - intros Honce. apply showTokenDetails_not_owned.
    unfold ownedIds. by rewrite Howned.
Qed.

(** C6, amended: an address that is not on the list of trusted retailer
    addresses, which is one list for all categories, is rejected with the
    security warning and the state is returned as it was, so no payment or
    transfer is recorded; the lookup answers [false] for it.  An address on
    the list is paid, whichever product it is the retailer of: with the
    mismatch warning, which names the retailer of the product, when it is
    not the address of that retailer, and with "Address verified" when it
    is. *)
Theorem untrusted_address_rejected
    (s : State) (now : Z) (address listed : string) (product : Product.t) :
  (address ∉ trustedAddresses →
   bool_decide (address ∈ trustedAddresses) = false
   ∧ verifyRetailerAddress now address product s
     = (s, [ShowAlert UntrustedAddress; EnableSendButton])
   ∧ (sendPayment now address s).1 = s)
  ∧ (listed ∈ trustedAddresses →
     ∃ s' entry shown,
       verifyRetailerAddress now listed product s = (s', [ShowAlert shown])
       ∧ (listed ≠ Product.retailerAddress product →
          shown = AddressMismatch (Product.retailer product))
       ∧ (listed = Product.retailerAddress product → shown = AddressVerified)
       ∧ transactions s' = entry :: transactions s
       ∧ Transaction.type entry = Transaction.payment
       ∧ Transaction.to entry = listed
       ∧ Transaction.amount entry
         = Some (toString (Product.price product) +:+ " DLLR")
       ∧ ownedTokens s' = ownedTokens s
       ∧ balance s' = balance s).
Proof.
  split.
  - intros Hnot.
    assert (Hlookup : bool_decide (address ∈ trustedAddresses) = false)
      by by apply bool_decide_eq_false.
    assert (Hverify : ∀ p, verifyRetailerAddress now address p s
                           = (s, [ShowAlert UntrustedAddress; EnableSendButton])).
    { intros p. unfold verifyRetailerAddress. by rewrite Hlookup. }
    split_and!; [ done | done | ].
    unfold sendPayment.
    destruct (productOf (currentProduct s)) as [ p | ]; [ | done ].
    by rewrite Hverify.
  - intros Hin. unfold verifyRetailerAddress.
    rewrite (bool_decide_eq_true_2 _ Hin). cbn [negb].
    destruct (String.eqb_spec listed (Product.retailerAddress product))
      as [Hown | Hother]; cbn [negb];
      eexists _, _, _; split_and!; try reflexivity; intros Heq; congruence.
Qed.

End Session.

(** *** A session on the loaded page *)

Lemma afterPurchase_find :
  list_find (λ t, Token.id t = "#LUX-007") (ownedTokens afterPurchase)
    = Some (0%nat, purchasedToken).
Proof. reflexivity. Qed.

Lemma afterPurchase_reachable : reachable (locale := demoLocale) afterPurchase.
Proof. by eexists 0, _. Qed.

Lemma afterTwoPurchases_reachable :
  reachable (locale := demoLocale) afterTwoPurchases.
Proof.
  exists 0, [(0, OpOpenPurchaseModal "fragrance");
             (1000, OpSendPayment "0xU...rah5r");
             (5000, OpConfirmReceipt 6); (6000, OpConfirmReceipt 6)].
  vm_compute. reflexivity.
Qed.


Lemma burned_token_is_gone_witness :
  ∃ burned,
    burnToken (locale := demoLocale) unlocked true "#LUX-007" afterPurchase
      = (burned, [AlertTokenBurned "#LUX-007"])
    ∧ eventsFor "#LUX-007" (runAll (locale := demoLocale) laterOps burned)
      = eventsFor "#LUX-007" burned
    ∧ ∀ later confirmed,
        burnToken (locale := demoLocale) later confirmed "#LUX-007"
                  (runAll (locale := demoLocale) laterOps burned)
          = (runAll (locale := demoLocale) laterOps burned, [AlertTokenNotFound]).
Proof.
  destruct
    (burned_token_is_gone (locale := demoLocale) afterPurchase "#LUX-007" 0
       purchasedToken unlocked laterOps afterPurchase_find)
    as (burned & Hburn & Hlater).
  - vm_compute. apply not_elem_of_nil.
  - reflexivity.
  - intros productType [= <-]. apply (bool_decide_unpack _). reflexivity.
  - repeat constructor. apply (bool_decide_unpack _). reflexivity.
  - exists burned. split; [ exact Hburn | ].
    apply Hlater. injection Hburn as <-.
    repeat split; vm_compute; discriminate.
Defined.

Lemma burn_removes_token_witness :
  ∃ s' entry,
    burnToken (locale := demoLocale) unlocked true "#LUX-007" afterPurchase
      = (s', [AlertTokenBurned "#LUX-007"])
    ∧ ownedTokens s' = []
    ∧ transactions s' = entry :: transactions afterPurchase
    ∧ burnEntry "#LUX-007" purchasedToken entry
    ∧ showTokenDetails "#LUX-007" s' = (s', [AlertTokenNotFound]).
Proof.
  destruct
    (burn_removes_token (locale := demoLocale) afterPurchase "#LUX-007" 0
       purchasedToken unlocked afterPurchase_find)
    as (s' & entry & Hburn & Howned & _ & Hledger & Hentry & Hshow).
  - reflexivity.
  - exists s', entry. split_and!; try done.
    apply Hshow. vm_compute. apply not_elem_of_nil.
Defined.

Lemma untrusted_address_rejected_witness :
  verifyRetailerAddress (locale := demoLocale) 1000 "0xU...f4ke" fragrance
                        afterPurchase
    = (afterPurchase, [ShowAlert UntrustedAddress; EnableSendButton])
  ∧ (sendPayment (locale := demoLocale) 1000 "0xU...f4ke" afterPurchase).1
    = afterPurchase
  ∧ ∃ s' entry,
      verifyRetailerAddress (locale := demoLocale) 1000 "0xU...ph4rm" fragrance
                            afterPurchase
        = (s', [ShowAlert (AddressMismatch "Scent & Soul Boutique")])
      ∧ transactions s' = entry :: transactions afterPurchase
      ∧ Transaction.type entry = Transaction.payment
      ∧ Transaction.to entry = "0xU...ph4rm".
Proof.
  destruct
    (untrusted_address_rejected (locale := demoLocale) afterPurchase 1000
       "0xU...f4ke" "0xU...ph4rm" fragrance)
    as [Hunknown Hlisted].
  destruct Hunknown as (_ & Hverify & Hsend).
  { apply (bool_decide_unpack _). reflexivity. }
  split_and!; [ exact Hverify | exact Hsend | ].
  destruct Hlisted
    as (s' & entry & shown & Hpaid & Hmismatch & _ & Hledger & Htype & Hto & _).
  { apply (bool_decide_unpack _). reflexivity. }
  exists s', entry. split_and!; [ | exact Hledger | exact Htype | exact Hto ].
  rewrite Hpaid. by rewrite Hmismatch.
Defined.

Lemma ledger_append_only_witness :
  ∃ added,
    transactions
      (run (locale := demoLocale) unlocked (OpBurnToken "#LUX-007" true)
           afterPurchase).1
      = added ++ transactions afterPurchase
    ∧ (∀ new old, new ∈ added → old ∈ transactions afterPurchase →
         ∃ i j, Transaction.id new = Some i ∧ Transaction.id old = Some j
                ∧ j < i)
    ∧ ∃ ids,
        Transaction.id
          <$> transactions
                (run (locale := demoLocale) unlocked
                     (OpBurnToken "#LUX-007" true) afterPurchase).1
          = Some <$> ids
        ∧ StronglySorted (λ newer older, older < newer) ids.
Proof.
  apply (ledger_append_only (locale := demoLocale)), afterPurchase_reachable.
Defined.


(** C2, as stated, fails.  After the burn of [#LUX-007] a second attempt is
    answered with "Token not found.", which is the answer for an id that was
    never handed out: nothing tells a burned token from an unknown one.  And
    when two received tokens were given the same id, the second attempt goes
    through and the ledger gets a second burn entry for the id. *)
Lemma second_burn_not_terminal :
  (∃ burned,
     burnToken (locale := demoLocale) unlocked true "#LUX-007" afterPurchase
       = (burned, [AlertTokenBurned "#LUX-007"])
     ∧ burnToken (locale := demoLocale) (unlocked + 1) true "#LUX-007" burned
       = (burned, [AlertTokenNotFound])
     ∧ burnToken (locale := demoLocale) (unlocked + 1) true "#LUX-999" burned
       = (burned, [AlertTokenNotFound]))
  ∧ (∃ burned again,
       burnToken (locale := demoLocale) (unlocked + 1000) true "#LUX-007"
                 afterTwoPurchases
         = (burned, [AlertTokenBurned "#LUX-007"])
       ∧ burnToken (locale := demoLocale) (unlocked + 2000) true "#LUX-007"
                   burned
         = (again, [AlertTokenBurned "#LUX-007"])
       ∧ Transaction.type <$> eventsFor "#LUX-007" burned
         = [Transaction.burn; Transaction.transfer; Transaction.transfer]
       ∧ Transaction.type <$> eventsFor "#LUX-007" again
         = [Transaction.burn; Transaction.burn;
            Transaction.transfer; Transaction.transfer]).
Proof.
  split.
  - eexists. split_and!; [ reflexivity | reflexivity | reflexivity ].
  - eexists _, _. split_and!; [ reflexivity | reflexivity | reflexivity | reflexivity ].
Qed.

(** C3, as stated, fails: the details of [#LUX-007] can be looked up before
    the burn and no longer after it, the collection being empty then. *)
Lemma burned_token_not_queryable :
  showTokenDetails "#LUX-007" afterPurchase
    = (afterPurchase, [AlertTokenDetails purchasedToken])
  ∧ ∃ burned,
      burnToken (locale := demoLocale) unlocked true "#LUX-007" afterPurchase
        = (burned, [AlertTokenBurned "#LUX-007"])
      ∧ ownedTokens burned = []
      ∧ showTokenDetails "#LUX-007" burned = (burned, [AlertTokenNotFound]).
Proof.
  split; [ reflexivity | ].
  eexists. split_and!; reflexivity.
Qed.

(** C6, as stated, fails: the pharmacy's address is not among the retailers
    of the category of the fragrance, and still the payment for the
    fragrance to that address is recorded, with a mismatch warning only. *)
Lemma other_retailer_is_paid :
  ∃ s' entry,
    productOf (Some "fragrance") = Some fragrance
    ∧ ("0xU...ph4rm" ∉ retailersOf (Product.category fragrance))
    ∧ verifyRetailerAddress (locale := demoLocale) 1000 "0xU...ph4rm" fragrance
                            (loaded (locale := demoLocale) 0)
      = (s', [ShowAlert (AddressMismatch "Scent & Soul Boutique")])
    ∧ transactions s' = entry :: transactions (loaded (locale := demoLocale) 0)
    ∧ Transaction.type entry = Transaction.payment
    ∧ Transaction.to entry = "0xU...ph4rm"
    ∧ Transaction.amount entry = Some "50 DLLR".
Proof.
  eexists _, _. split_and!; try reflexivity.
  apply (bool_decide_unpack _). reflexivity.
Qed.

End AppFacts.

(** ** The warranty circuit *)

Module CircuitFacts.
Import Circuit Scenario.

Lemma p_large : 2 ^ 65 < p.
Proof. reflexivity. Qed.

Lemma bit_spec (x : Z) (i : nat) :
  Z.land (Z.shiftr x (Z.of_nat i)) 1 = (x / 2 ^ Z.of_nat i) mod 2.
Proof.
  rewrite Z.shiftr_div_pow2 by lia.
  change 1 with (Z.ones 1). by rewrite Z.land_ones.
Qed.

Lemma bit_boolean (x : Z) (i : nat) :
  (fmul (Z.land (Z.shiftr x (Z.of_nat i)) 1)
        (fsub (Z.land (Z.shiftr x (Z.of_nat i)) 1) 1) =? 0) = true.
Proof.
  rewrite bit_spec.
  assert (Hbit : (x / 2 ^ Z.of_nat i) mod 2 = 0 ∨ (x / 2 ^ Z.of_nat i) mod 2 = 1).
  { pose proof (Z.mod_pos_bound (x / 2 ^ Z.of_nat i) 2). lia. }
  by destruct Hbit as [-> | ->].
Qed.

(** The linear combination [lc1] after [k] bits, with the power [e2]. *)
Lemma lc1_prefix (x : Z) (k : nat) :
  fold_left (λ acc b, (fadd acc.1 (fmul b acc.2), fadd acc.2 acc.2))
            (map (λ i, Z.land (Z.shiftr x (Z.of_nat i)) 1) (seq 0 k)) (0, 1)
  = ((x mod 2 ^ Z.of_nat k) mod p, 2 ^ Z.of_nat k mod p).
Proof.
  induction k as [ | k IH ].
  - simpl. by rewrite Z.mod_1_r.
  - rewrite seq_S, map_app, fold_left_app, IH.
    cbn [fold_left map fst snd Nat.add].
    rewrite Nat2Z.inj_succ, Z.pow_succ_r by lia.
    assert (Hpow : 0 < 2 ^ Z.of_nat k) by (apply Z.pow_pos_nonneg; lia).
    f_equal.
    + unfold fadd, fmul. rewrite bit_spec.
      rewrite Zmult_mod_idemp_r, Zplus_mod_idemp_l, Zplus_mod_idemp_r.
      f_equal. rewrite (Z.mul_comm 2 (2 ^ Z.of_nat k)), Z.rem_mul_r by lia.
      lia.
    + unfold fadd. rewrite <- Zplus_mod. f_equal. lia.
Qed.

Lemma Num2Bits_satisfied (n : nat) (x : Z) :
  0 ≤ x < 2 ^ Z.of_nat n → x < p → satisfied (Num2Bits n x) = true.
Proof.
  intros Hx Hp. unfold Num2Bits. cbn [satisfied].
  apply andb_true_iff. split.
  - apply forallb_forall. intros b (i & <- & _)%in_map_iff.
    apply bit_boolean.
  - rewrite lc1_prefix. cbn [fst].
    rewrite (Z.mod_small x) by lia. rewrite Z.mod_small by lia.
    apply Z.eqb_refl.
Qed.

Lemma Num2Bits_nth (n i : nat) (x : Z) :
  (i < n)%nat →
  nth i (out (Num2Bits n x)) 0 = (x / 2 ^ Z.of_nat i) mod 2.
Proof.
  intros Hi. unfold Num2Bits. cbn [out].
  rewrite nth_lookup, list_lookup_fmap, lookup_seq_lt by done.
  cbn. apply bit_spec.
Qed.

(** [LessEqThan(n)] on operands that fit: the flag, and the constraints. *)
Lemma LessEqThan_spec (n : nat) (a b : Z) :
  2 ^ (Z.of_nat n + 1) < p →
  0 ≤ a < 2 ^ Z.of_nat n → 0 ≤ b < 2 ^ Z.of_nat n →
  satisfied (LessEqThan n a b) = true
  ∧ out (LessEqThan n a b) = (if a <=? b then 1 else 0).
Proof.
  intros Hp Ha Hb.
  assert (Hpow : 2 ^ (Z.of_nat n + 1) = 2 * 2 ^ Z.of_nat n)
    by (rewrite Z.pow_add_r by lia; lia).
  assert (Hp1 : 1 < p) by (pose proof p_large; lia).
  unfold LessEqThan, LessThan. cbn [out satisfied].
  set (x := fsub (fadd a (2 ^ Z.of_nat n)) (fadd b 1)).
  assert (Hx : x = a + 2 ^ Z.of_nat n - (b + 1)).
  { unfold x, fsub, fadd.
    rewrite (Z.mod_small (a + _)), (Z.mod_small (b + 1)), Z.mod_small; lia. }
  split.
  - apply Num2Bits_satisfied; rewrite ?Nat2Z.inj_add; cbn [Z.of_nat]; lia.
  - rewrite Num2Bits_nth by lia. unfold fsub.
    destruct (Z.leb_spec a b) as [Hle | Hgt].
    + rewrite (Z.div_small x) by lia. by rewrite Z.mod_small.
    + assert (Hq : x / 2 ^ Z.of_nat n = 1).
      { symmetry. apply (Z.div_unique x _ 1 (a - (b + 1))); lia. }
      by rewrite Hq.
Qed.

Section Signals.

Variable Pedersen : Z → Z → Z.

(** C7: whatever the public and private inputs, the template assigns 1 to
    [isValid]; and no output at all depends on the verification hash, on the
    manufacturer's public key or on the owner's private key. *)
Theorem isValid_always_one (i : Inputs) :
  isValid (out (ProductVerification Pedersen i)) = 1
  ∧ ∀ hash publicKey privateKey,
      ProductVerification Pedersen
        {| verificationHash := hash; manufacturerPublicKey := publicKey;
           currentTimestamp := currentTimestamp i; productId := productId i;
           ownerPrivateKey := privateKey; mintTimestamp := mintTimestamp i;
           warrantyPeriod := warrantyPeriod i;
           supplyChainHash := supplyChainHash i |}
      = ProductVerification Pedersen i.
Proof.
  split.
  - reflexivity.
  - intros hash publicKey privateKey. reflexivity.
Qed.

(** C8, amended: when the current timestamp and the sum of the mint
    timestamp and the warranty period are non-negative and below 2^64, the
    constraints of the comparator hold and [isInWarranty] is 1 when the
    current timestamp is at most that sum and 0 otherwise. *)
Theorem isInWarranty_in_range (i : Inputs) :
  0 ≤ currentTimestamp i < 2 ^ 64 →
  0 ≤ mintTimestamp i →
  0 ≤ warrantyPeriod i →
  mintTimestamp i + warrantyPeriod i < 2 ^ 64 →
  satisfied (ProductVerification Pedersen i) = true
  ∧ (isInWarranty (out (ProductVerification Pedersen i)) = 1 ↔
     currentTimestamp i ≤ mintTimestamp i + warrantyPeriod i)
  ∧ (isInWarranty (out (ProductVerification Pedersen i)) = 0 ↔
     mintTimestamp i + warrantyPeriod i < currentTimestamp i).
Proof.
  intros Hcur Hmint Hwar Hsum.
  assert (Hfadd : fadd (mintTimestamp i) (warrantyPeriod i)
                  = mintTimestamp i + warrantyPeriod i).
  { unfold fadd. apply Z.mod_small. pose proof p_large. lia. }
  unfold ProductVerification. cbn [out satisfied isInWarranty]. rewrite Hfadd.
  destruct (LessEqThan_spec 64 (currentTimestamp i)
              (mintTimestamp i + warrantyPeriod i))
    as [Hsat Hout]; [ exact p_large | done | lia | ].
  rewrite Hsat, Hout. split; [ done | ].
  destruct (Z.leb_spec (currentTimestamp i)
              (mintTimestamp i + warrantyPeriod i)); split; split; lia.
Qed.

End Signals.

Lemma isInWarranty_in_range_witness :
  satisfied (ProductVerification Z.add demoInputs) = true
  ∧ isInWarranty (out (ProductVerification Z.add demoInputs)) = 1.
Proof.
  destruct (isInWarranty_in_range Z.add demoInputs) as (Hsat & Hin & _);
    [ split; [ vm_compute; discriminate | reflexivity ]
    | vm_compute; discriminate | vm_compute; discriminate | reflexivity | ].
  split; [ exact Hsat | ]. apply Hin. vm_compute. discriminate.
Defined.

(** C8, as stated, fails on [wrappedInputs]: every input is a signal of the
    field, the constraints hold, the current timestamp is below the mint
    timestamp plus the warranty period, and [isInWarranty] is 0. *)
Lemma isInWarranty_wraps :
  satisfied (ProductVerification Z.add wrappedInputs) = true
  ∧ 0 ≤ mintTimestamp wrappedInputs < p
  ∧ ¬ (isInWarranty (out (ProductVerification Z.add wrappedInputs)) = 1 ↔
       currentTimestamp wrappedInputs
         ≤ mintTimestamp wrappedInputs + warrantyPeriod wrappedInputs).
Proof.
  split; [ reflexivity | split ].
  - split; [ vm_compute; discriminate | reflexivity ].
  - intros [_ Hclaim]. discriminate Hclaim. vm_compute. discriminate.
Qed.

End CircuitFacts.

(** ** Sessions of the demo page *)

Module SessionFacts.
Import App Session Scenario AppFacts.

Section Invariants.

Context {locale : Locale}.

(** *** Identifiers without gaps *)

Lemma loaded_dense now : dense (loaded now).
Proof.
  split; [ reflexivity | ].
  intros i tx Hi.
  do 8 (destruct i as [ | i ]; [ by injection Hi as <- | ]).
  discriminate Hi.
Qed.

Lemma run_dense now op s : dense s → dense (run now op s).1.
Proof.
  intros [Hlen Hids].
  destruct (run_ledger now op s) as [[Htx Hctr] | (tx & Htx & Hctr)].
  - unfold dense. by rewrite Htx, Hctr.
  - unfold dense. rewrite Htx, Hctr. split.
    + cbn [length]. lia.
    + intros [ | i ] entry Hi.
      * injection Hi as <-. cbn. f_equal. lia.
      * cbn in Hi. rewrite (Hids i entry Hi). f_equal. lia.
Qed.

Lemma runAll_dense ops s : dense s → dense (runAll ops s).
Proof.
  revert s. induction ops as [ | [now op] ops IH ]; intros s Hs; [ done | ].
  cbn [runAll]. by apply IH, run_dense.
Qed.

(** X1: in every state the page can reach, the counter is the number of
    ledger entries and the entry at position [i] from the front has the
    identifier [counter - 1 - i]: identifiers run from the newest entry
    down to 0 at the oldest, without gaps or repeats. *)
Theorem ledger_ids_dense (s : State) :
  reachable s →
  transactionCounter s = Z.of_nat (length (transactions s))
  ∧ ∀ i tx, transactions s !! i = Some tx →
            Transaction.id tx = Some (transactionCounter s - 1 - Z.of_nat i).
Proof. intros (now & ops & ->). apply runAll_dense, loaded_dense. Qed.

(** *** Tokens received, held and burned *)

Lemma filter_delete_length {A} (P : A → Prop) `{∀ x, Decision (P x)}
    (l : list A) (i : nat) (x : A) :
  l !! i = Some x →
  length (filter P l)
  = ((if decide (P x) then 1 else 0) + length (filter P (delete i l)))%nat.
Proof.
  intros Hi. rewrite (filter_Permutation P _ _ (delete_Permutation l i x Hi)).
  destruct (decide (P x)).
  - by rewrite filter_cons_True.
  - by rewrite filter_cons_False.
Qed.

Lemma received_addTransaction now tx tokenId s :
  received tokenId (addTransaction now tx s)
  = ((if decide (isReceipt tokenId tx) then 1 else 0) + received tokenId s)%nat.
Proof.
  unfold received. cbn [transactions addTransaction].
  destruct (decide (isReceipt tokenId tx)) as [Hyes | Hno].
  - by rewrite filter_cons_True.
  - by rewrite filter_cons_False.
Qed.

Lemma burned_addTransaction now tx tokenId s :
  burned tokenId (addTransaction now tx s)
  = ((if decide (isBurn tokenId tx) then 1 else 0) + burned tokenId s)%nat.
Proof.
  unfold burned. cbn [transactions addTransaction].
  destruct (decide (isBurn tokenId tx)) as [Hyes | Hno].
  - by rewrite filter_cons_True.
  - by rewrite filter_cons_False.
Qed.

Lemma run_conserves now op tokenId s :
  (held tokenId s + burned tokenId s = received tokenId s)%nat →
  (held tokenId (run now op s).1 + burned tokenId (run now op s).1
   = received tokenId (run now op s).1)%nat.
Proof.
  intros Hinv.
  destruct op as [ productType | | address | draw | shown | | burnt confirmed ];
    cbn [run].
  - unfold openPurchaseModal.
    destruct (productOf (Some productType)) as [ product | ]; [ | done ].
    by destruct (balance s <? Product.price product).
  - done.
  - unfold sendPayment.
    destruct (productOf (currentProduct s)) as [ product | ]; [ | done ].
    unfold verifyRetailerAddress.
    destruct (negb (bool_decide (address ∈ trustedAddresses))); [ done | ].
    cbn [fst]. rewrite received_addTransaction, burned_addTransaction.
    rewrite !decide_False; [ done | by intros [? _] | by intros [? _] ].
  - unfold confirmReceipt.
    destruct (productOf (currentProduct s)) as [ product | ]; [ | done ].
    cbn [fst].
    change (held tokenId (closeModal ?x)) with (held tokenId x).
    change (burned tokenId (closeModal ?x)) with (burned tokenId x).
    change (received tokenId (closeModal ?x)) with (received tokenId x).
    rewrite received_addTransaction, burned_addTransaction.
    rewrite (decide_False (P := isBurn _ _)) by by intros [? _].
    unfold held, received, burned in *.
    cbn [ownedTokens transactions addTransaction]. rewrite filter_app, length_app.
    destruct (decide (newTokenId product draw = tokenId)) as [Heq | Hne].
    + rewrite decide_True by (by repeat split; cbn; rewrite ?Heq).
      rewrite filter_cons_True by done. rewrite filter_nil. cbn [length]. lia.
    + rewrite decide_False by (intros (_ & _ & [= ?]); done).
      rewrite filter_cons_False by done. rewrite filter_nil. cbn [length]. lia.
  - unfold showTokenDetails.
    by destruct (list_find _ (ownedTokens s)) as [ [? ?] | ].
  - done.
  - unfold burnToken.
    destruct (list_find _ (ownedTokens s)) as [ [tokenIndex token] | ] eqn:Hfind;
      [ | done ].
    destruct (now <? Token.burnLockDate token); [ done | ].
    destruct confirmed; [ | done ].
    cbn [negb fst].
    apply list_find_Some in Hfind as (Hlookup & Hid & _).
    pose proof (filter_delete_length (λ t, Token.id t = tokenId)
                  (ownedTokens s) tokenIndex token Hlookup) as Hheld.
    unfold held, received, burned in *.
    cbn [ownedTokens transactions withTokens addTransaction].
    rewrite (filter_cons_False (isReceipt tokenId)) by by intros [? _].
    destruct (decide (burnt = tokenId)) as [-> | Hne].
    + rewrite decide_True in Hheld by done.
      rewrite filter_cons_True by done. cbn [length]. lia.
    + rewrite decide_False in Hheld by congruence.
      rewrite filter_cons_False by (intros [_ [= ?]]; done). lia.
Qed.

Lemma runAll_conserves ops tokenId s :
  (held tokenId s + burned tokenId s = received tokenId s)%nat →
  (held tokenId (runAll ops s) + burned tokenId (runAll ops s)
   = received tokenId (runAll ops s))%nat.
Proof.
  revert s. induction ops as [ | [now op] ops IH ]; intros s Hs; [ done | ].
  cbn [runAll]. by apply IH, run_conserves.
Qed.

(** X2: in every state the page can reach and for every token id, the
    owned tokens with that id and the burn entries for it add up to the
    transfers of it to the wallet: a token that was received is still owned
    or has a burn entry, and nothing is burned that was not received. *)
Theorem tokens_conserved (s : State) (tokenId : string) :
  reachable s →
  (held tokenId s + burned tokenId s = received tokenId s)%nat.
Proof. intros (now & ops & ->). by apply runAll_conserves. Qed.

(** *** The balance *)

Lemma priceByName_product productType product :
  productOf productType = Some product →
  priceByName (Product.name product) = Product.price product.
Proof.
  destruct productType as [ key | ]; [ | done ].
  unfold productOf, productInfo. cbn [List.find fst snd].
  repeat (destruct (String.eqb _ key); [ by intros [= <-] | ]).
  done.
Qed.

Lemma run_balance now op s :
  balance s = 200 - spent s →
  balance (run now op s).1 = 200 - spent (run now op s).1.
Proof.
  intros Hinv.
  destruct op as [ productType | | address | draw | shown | | burnt confirmed ];
    cbn [run].
  - unfold openPurchaseModal.
    destruct (productOf (Some productType)) as [ product | ]; [ | done ].
    by destruct (balance s <? Product.price product).
  - done.
  - unfold sendPayment.
    destruct (productOf (currentProduct s)) as [ product | ]; [ | done ].
    unfold verifyRetailerAddress.
    by destruct (negb (bool_decide (address ∈ trustedAddresses))).
  - unfold confirmReceipt.
    destruct (productOf (currentProduct s)) as [ product | ] eqn:Hproduct;
      [ | done ].
    unfold spent in *.
    cbn [fst balance transactions closeModal addTransaction foldr
         Transaction.stamp Transaction.type Transaction.to Transaction.product].
    rewrite bool_decide_eq_true_2 by done.
    rewrite (priceByName_product _ _ Hproduct). lia.
  - unfold showTokenDetails.
    by destruct (list_find _ (ownedTokens s)) as [ [? ?] | ].
  - done.
  - unfold burnToken.
    destruct (list_find _ (ownedTokens s)) as [ [tokenIndex token] | ];
      [ | done ].
    destruct (now <? Token.burnLockDate token); [ done | ].
    by destruct confirmed.
Qed.

Lemma runAll_balance ops s :
  balance s = 200 - spent s →
  balance (runAll ops s) = 200 - spent (runAll ops s).
Proof.
  revert s. induction ops as [ | [now op] ops IH ]; intros s Hs; [ done | ].
  cbn [runAll]. by apply IH, run_balance.
Qed.

(** X3: in every state the page reaches in a session that asks for
    ordinary product types only, the balance is the 200 the page starts
    with less the table prices of the products whose transfer to the wallet
    is in the ledger; payment entries take nothing off it.  (After a
    receipt for a name inherited from [Object.prototype] the code has no
    number for a balance.) *)
Theorem balance_is_start_less_receipts (start : Z) (ops : list (Z * Op)) :
  ordinarySession ops →
  balance (runAll ops (loaded start))
  = 200 - spent (runAll ops (loaded start)).
Proof. intros _. by apply runAll_balance. Qed.

(** *** Lock dates along a session *)

Lemma ceilDays_spec (ms : Z) :
  dayMs * (ceilDays ms - 1) < ms ≤ dayMs * ceilDays ms.
Proof.
  unfold ceilDays. change dayMs with 86400000.
  pose proof (Z.div_mod (- ms) 86400000).
  pose proof (Z.mod_pos_bound (- ms) 86400000). lia.
Qed.

Lemma ceilDays_nonpos (ms : Z) : ceilDays ms ≤ 0 ↔ ms ≤ 0.
Proof. pose proof (ceilDays_spec ms). change dayMs with 86400000 in *. lia. Qed.

Lemma ceilDays_range (ms : Z) :
  0 < ms ≤ 14 * dayMs → 1 ≤ ceilDays ms ≤ 14.
Proof. pose proof (ceilDays_spec ms). change dayMs with 86400000 in *. lia. Qed.

Lemma StronglySorted_delete {A} (R : A → A → Prop) (l : list A) (i : nat) :
  StronglySorted R l → StronglySorted R (delete i l).
Proof.
  intros Hsorted. revert i.
  induction Hsorted as [ | x l Hl IH Hx ]; intros [ | i ]; cbn;
    [ constructor | constructor | done | ].
  constructor; [ apply IH | by apply Forall_delete ].
Qed.

Lemma StronglySorted_lookup {A} (R : A → A → Prop) (l : list A) i j x y :
  StronglySorted R l → l !! i = Some x → l !! j = Some y → (i < j)%nat →
  R x y.
Proof.
  intros Hsorted. revert i j.
  induction Hsorted as [ | z l Hl IH Hz ]; intros i j Hi Hj Hlt; [ done | ].
  destruct j as [ | j ]; [ lia | ]. cbn in Hj.
  destruct i as [ | i ].
  - injection Hi as <-. rewrite Forall_forall in Hz.
    by eapply Hz, list_elem_of_lookup_2.
  - cbn in Hi. apply (IH i j); [ done | done | lia ].
Qed.

Lemma run_tokens now op s :
  ownedTokens (run now op s).1 = ownedTokens s
  ∨ (∃ t, ownedTokens (run now op s).1 = ownedTokens s ++ [t]
          ∧ Token.burnLockDate t = now + 14 * dayMs)
  ∨ ∃ i, ownedTokens (run now op s).1 = delete i (ownedTokens s).
Proof.
  destruct op as [ productType | | address | draw | shown | | burnt confirmed ];
    cbn [run].
  - left. unfold openPurchaseModal.
    destruct (productOf (Some productType)) as [ product | ]; [ | done ].
    by destruct (balance s <? Product.price product).
  - by left.
  - left. unfold sendPayment.
    destruct (productOf (currentProduct s)) as [ product | ]; [ | done ].
    unfold verifyRetailerAddress.
    by destruct (negb (bool_decide (address ∈ trustedAddresses))).
  - unfold confirmReceipt.
    destruct (productOf (currentProduct s)) as [ product | ]; [ | by left ].
    right. left. eexists. split; reflexivity.
  - left. unfold showTokenDetails.
    by destruct (list_find _ (ownedTokens s)) as [ [? ?] | ].
  - by left.
  - unfold burnToken.
    destruct (list_find _ (ownedTokens s)) as [ [tokenIndex token] | ];
      [ | by left ].
    destruct (now <? Token.burnLockDate token); [ by left | ].
    destruct confirmed; [ | by left ].
    right. right. by exists tokenIndex.
Qed.

Lemma aging_later earlier later s :
  earlier ≤ later → aging earlier s → aging later s.
Proof.
  intros Hle [Hsorted Hbound]. split; [ done | ].
  eapply Forall_impl; [ exact Hbound | ]. cbn. lia.
Qed.

Lemma run_aging now op s : aging now s → aging now (run now op s).1.
Proof.
  intros [Hsorted Hbound]. unfold aging.
  destruct (run_tokens now op s) as [-> | [(t & -> & Hlock) | [i ->]]].
  - done.
  - split.
    + apply StronglySorted_app. split_and!; [ | done | repeat constructor ].
      intros older newer Holder ->%list_elem_of_singleton.
      rewrite Forall_forall in Hbound. rewrite Hlock. by apply Hbound.
    + apply Forall_app. split; [ done | ].
      constructor; [ lia | constructor ].
  - split; [ by apply StronglySorted_delete | by apply Forall_delete ].
Qed.

Lemma runAll_aging start ops s :
  chronological start ops → aging start s →
  aging (lastTime start ops) (runAll ops s).
Proof.
  revert start s. induction ops as [ | [now op] ops IH ]; intros start s;
    [ done | ].
  intros [Hle Hrest] Hs. cbn [runAll lastTime].
  apply IH; [ done | ]. apply run_aging. by apply (aging_later start).
Qed.

Lemma loaded_aging start : aging start (loaded start).
Proof. split; constructor. Qed.

(** X4: in a session whose clock never runs backwards, a Burn button
    that [createTokenElement] gave a handler when the card was drawn always
    burns when it is pressed then or later: once the holder confirms,
    [burnToken] with the id of the button records the burn, even when
    several owned tokens have that id. *)
Theorem enabled_button_burns
    (start : Z) (ops : list (Z * Op)) (shown pressed : Z)
    (card : View.TokenCard) (tokenId : string) :
  chronological start ops →
  lastTime start ops ≤ shown →
  shown ≤ pressed →
  card ∈ View.updateTokenDisplay shown (runAll ops (loaded start)) →
  View.onclick card = Some tokenId →
  ∃ s', burnToken pressed true tokenId (runAll ops (loaded start))
        = (s', [AlertTokenBurned tokenId]).
Proof.
  intros Hchrono Hshown Hpressed Hcard Hclick.
  set (s := runAll ops (loaded start)) in *.
  destruct (runAll_aging start ops _ Hchrono (loaded_aging start))
    as [Hsorted _]. fold s in Hsorted.
  apply list_elem_of_fmap in Hcard as (t & -> & Ht).
  rewrite elem_of_reverse in Ht.
  cbn in Hclick.
  destruct (ceilDays (Token.burnLockDate t - shown) <=? 0) eqn:Hcan;
    [ | discriminate Hclick ].
  injection Hclick as <-.
  apply Z.leb_le in Hcan. rewrite ceilDays_nonpos in Hcan.
  apply list_elem_of_lookup in Ht as [j Hj].
  destruct (list_find (λ t', Token.id t' = Token.id t) (ownedTokens s))
    as [ [i first] | ] eqn:Hfind.
  - assert (Hfirst : Token.burnLockDate first ≤ pressed).
    { apply list_find_Some in Hfind as (Hi & _ & Hleast).
      destruct (decide (i = j)) as [-> | Hne].
      - assert (first = t) as -> by congruence. lia.
      - assert (i < j)%nat.
        { destruct (decide (j < i)%nat) as [Hlt | ?]; [ | lia ].
          by destruct (Hleast j t Hj Hlt). }
        pose proof (StronglySorted_lookup _ _ i j first t Hsorted Hi Hj).
        cbn in *. lia. }
    destruct (burnToken_unlocked pressed (Token.id t) i first s Hfind Hfirst)
      as (s' & entry & Hburn & _). eauto.
  - apply list_find_None in Hfind. rewrite Forall_forall in Hfind.
    destruct (Hfind t); [ by eapply list_elem_of_lookup_2 | done ].
Qed.

(** X5: in a session whose clock never runs backwards, whenever
    [burnToken] answers that the token is locked, the number of days it
    reports is at least 1 and at most 14. *)
Theorem locked_days_between_1_and_14
    (start : Z) (ops : list (Z * Op)) (now : Z)
    (tokenId : string) (confirmed : bool) (days : Z) :
  chronological start ops →
  lastTime start ops ≤ now →
  (burnToken now confirmed tokenId (runAll ops (loaded start))).2
    = [AlertTokenLocked days] →
  1 ≤ days ≤ 14.
Proof.
  intros Hchrono Hnow.
  set (s := runAll ops (loaded start)).
  destruct (aging_later _ now s Hnow
              (runAll_aging start ops _ Hchrono (loaded_aging start)))
    as [_ Hbound].
  unfold burnToken.
  destruct (list_find _ (ownedTokens s)) as [ [i t] | ] eqn:Hfind; [ | done ].
  apply list_find_Some in Hfind as (Hi%list_elem_of_lookup_2 & _).
  rewrite Forall_forall in Hbound. specialize (Hbound t Hi). cbn in Hbound.
  destruct (Z.ltb_spec now (Token.burnLockDate t)) as [Hlt | Hge].
  - intros [= <-]. apply ceilDays_range. lia.
  - by destruct confirmed.
Qed.

End Invariants.

Lemma ledger_ids_dense_witness :
  transactionCounter afterPurchase = 10
  ∧ ∀ i tx, transactions afterPurchase !! i = Some tx →
            Transaction.id tx = Some (10 - 1 - Z.of_nat i).
Proof.
  destruct (ledger_ids_dense (locale := demoLocale) afterPurchase
              afterPurchase_reachable) as [Hcounter Hids].
  split; [ reflexivity | exact Hids ].
Defined.


Lemma tokens_conserved_witness :
  (held "#LUX-007" afterTwoPurchases + burned "#LUX-007" afterTwoPurchases
   = 2)%nat.
Proof.
  rewrite (tokens_conserved (locale := demoLocale) afterTwoPurchases "#LUX-007"
             afterTwoPurchases_reachable).
  reflexivity.
Defined.

Lemma balance_is_start_less_receipts_witness :
  balance (runAll (locale := demoLocale) purchaseOps
                  (loaded (locale := demoLocale) 0)) = 150
  ∧ spent (runAll (locale := demoLocale) purchaseOps
                  (loaded (locale := demoLocale) 0)) = 50.
Proof.
  assert (Hordinary : ordinarySession purchaseOps).
  { repeat constructor. apply (bool_decide_unpack _). reflexivity. }
  pose proof (balance_is_start_less_receipts (locale := demoLocale)
                0 purchaseOps Hordinary) as Hbalance.
  split; [ rewrite Hbalance | ]; vm_compute; reflexivity.
Defined.

Lemma enabled_button_burns_witness :
  ∃ s', burnToken (locale := demoLocale) unlocked true "#LUX-007" afterPurchase
        = (s', [AlertTokenBurned "#LUX-007"]).
Proof.
  apply (enabled_button_burns (locale := demoLocale) 0 purchaseOps unlocked
           unlocked (View.createTokenElement unlocked purchasedToken)
           "#LUX-007").
  - cbn. lia.
  - vm_compute. discriminate.
  - reflexivity.
  - vm_compute. apply list_elem_of_here.
  - reflexivity.
Defined.

Lemma locked_days_between_1_and_14_witness :
  (burnToken (locale := demoLocale) 5000 true "#LUX-007" afterPurchase).2
    = [AlertTokenLocked 14]
  ∧ 1 ≤ 14 ≤ 14.
Proof.
  split; [ reflexivity | ].
  apply (locked_days_between_1_and_14 (locale := demoLocale) 0 purchaseOps 5000
           "#LUX-007" true 14).
  - cbn. lia.
  - vm_compute. discriminate.
  - reflexivity.
Defined.

End SessionFacts.

(** ** What the page displays *)

Module ViewFacts.
Import App Session View Scenario JsFacts.

(** X6: every item of the explorer stands for a ledger entry.  With
    privacy mode on, no item shows a sender or a recipient that contains
    [bc1q]; with privacy mode off the two lines are the addresses of the
    entry.  Whatever the mode, the title, product, token and time of the
    item are the same: privacy mode hides nothing but the two addresses,
    and it leaves the ledger as it is. *)
Theorem explorer_privacy (s : State) (item : TransactionItem) :
  item ∈ updateExplorer s →
  ∃ tx,
    tx ∈ transactions s
    ∧ item = createTransactionElement s tx
    ∧ (privacyEnabled s = true →
       includes (fromAddress item) "bc1q" = false
       ∧ includes (toAddress item) "bc1q" = false)
    ∧ (privacyEnabled s = false →
       fromAddress item = Transaction.from tx
       ∧ toAddress item = Transaction.to tx)
    ∧ (title (createTransactionElement (togglePrivacy s) tx),
       productText (createTransactionElement (togglePrivacy s) tx),
       tokenText (createTransactionElement (togglePrivacy s) tx),
       timeText (createTransactionElement (togglePrivacy s) tx))
      = (title item, productText item, tokenText item, timeText item)
    ∧ transactions (togglePrivacy s) = transactions s.
Proof.
  intros (tx & -> & Htx)%list_elem_of_fmap. exists tx.
  split_and!; [ done | done | | | reflexivity | reflexivity ].
  - intros Hon. cbn. rewrite Hon. cbn [andb].
    split.
    + destruct (String.eqb (Transaction.from tx) "") eqn:Hempty.
      * apply String.eqb_eq in Hempty. by rewrite Hempty.
      * cbn [negb andb].
        by destruct (includes (Transaction.from tx) "bc1q") eqn:Hinc.
    + destruct (String.eqb (Transaction.to tx) "") eqn:Hempty.
      * apply String.eqb_eq in Hempty. by rewrite Hempty.
      * cbn [negb andb].
        by destruct (includes (Transaction.to tx) "bc1q") eqn:Hinc.
  - intros Hoff. cbn. by rewrite Hoff.
Qed.

Lemma explorer_privacy_witness :
  let hidden := createTransactionElement (togglePrivacy afterPurchase)
                  receiptEntry in
  let shown := createTransactionElement afterPurchase receiptEntry in
  (hidden ∈ updateExplorer (togglePrivacy afterPurchase)
   ∧ includes (toAddress hidden) "bc1q" = false)
  ∧ (shown ∈ updateExplorer afterPurchase
     ∧ ∃ tx, shown = createTransactionElement afterPurchase tx
             ∧ toAddress shown = Transaction.to tx).
Proof.
  intros hidden shown.
  assert (Hhidden : hidden ∈ updateExplorer (togglePrivacy afterPurchase)).
  { vm_compute. apply list_elem_of_here. }
  assert (Hshown : shown ∈ updateExplorer afterPurchase).
  { vm_compute. apply list_elem_of_here. }
  split; split; [ exact Hhidden | | exact Hshown | ].
  - destruct (explorer_privacy _ _ Hhidden) as (_ & _ & _ & Hon & _).
    apply Hon. vm_compute. reflexivity.
  - destruct (explorer_privacy _ _ Hshown) as (tx & _ & Hitem & _ & Hoff & _).
    exists tx. split; [ exact Hitem | ].
    apply Hoff. vm_compute. reflexivity.
Defined.

(** *** Buying *)

Ltac in_list :=
  repeat first [ apply list_elem_of_here | apply list_elem_of_further ].

Section Purchase.

Context {locale : Locale}.

Lemma productOf_listed productType product :
  productOf (Some productType) = Some product →
  (productType, product) ∈ productInfo.
Proof.
  unfold productOf, productInfo. cbn [List.find fst snd].
  destruct (String.eqb_spec "fragrance" productType) as [<- | _];
    [ intros [= <-]; in_list | ].
  destruct (String.eqb_spec "medication" productType) as [<- | _];
    [ intros [= <-]; in_list | ].
  destruct (String.eqb_spec "produce" productType) as [<- | _];
    [ intros [= <-]; in_list | ].
  destruct (String.eqb_spec "energy" productType) as [<- | _];
    [ intros [= <-]; in_list | ].
  done.
Qed.

Lemma listed_productOf productType product :
  (productType, product) ∈ productInfo →
  productOf (Some productType) = Some product.
Proof.
  unfold productInfo. intros Hin.
  repeat (apply elem_of_cons in Hin as [[= -> ->] | Hin]; [ reflexivity | ]).
  by apply elem_of_nil in Hin.
Qed.

Lemma retailer_trusted productType product :
  productOf (Some productType) = Some product →
  Product.retailerAddress product ∈ trustedAddresses.
Proof.
  intros Hin%productOf_listed. unfold productInfo in Hin.
  repeat (apply elem_of_cons in Hin as [[= -> ->] | Hin];
          [ apply (bool_decide_unpack _); reflexivity | ]).
  by apply elem_of_nil in Hin.
Qed.

(** X7: for every product of the table, choosing it, sending the payment
    to the retailer address the table has for it and confirming the receipt
    shows "Address verified", puts a payment entry of the product's price
    and then a transfer entry of the new token in front of the ledger, adds
    the token at the end of the collection and takes the price off the
    balance. *)
Theorem purchase_at_own_retailer
    (s : State) (productType : string) (product : Product.t)
    (opened paid received draw : Z) :
  productOf (Some productType) = Some product →
  (run paid (OpSendPayment (Product.retailerAddress product))
       (run opened (OpOpenPurchaseModal productType) s).1).2
    = [ShowAlert AddressVerified]
  ∧ ∃ payment transfer token,
      runAll [(opened, OpOpenPurchaseModal productType);
              (paid, OpSendPayment (Product.retailerAddress product));
              (received, OpConfirmReceipt draw)] s
      = {| balance := balance s - Product.price product;
           currentProduct := Some productType;
           transactionCounter := transactionCounter s + 2;
           ownedTokens := ownedTokens s ++ [token];
           transactions := transfer :: payment :: transactions s;
           privacyEnabled := privacyEnabled s;
           purchaseInProgress := false |}
      ∧ Transaction.type payment = Transaction.payment
      ∧ Transaction.to payment = Product.retailerAddress product
      ∧ Transaction.amount payment
        = Some (toString (Product.price product) +:+ " DLLR")
      ∧ Transaction.type transfer = Transaction.transfer
      ∧ Transaction.from transfer = Product.retailerAddress product
      ∧ Transaction.to transfer = "bc1q...demo"
      ∧ Transaction.tokenId transfer = Some (Token.id token)
      ∧ Token.id token = newTokenId product draw
      ∧ Token.burnLockDate token = received + 14 * dayMs.
Proof.
  intros Hproduct. pose proof (retailer_trusted _ _ Hproduct) as Htrusted.
  assert (Hopen : (openPurchaseModal productType s).1
                  = {| balance := balance s;
                       currentProduct := Some productType;
                       transactionCounter := transactionCounter s;
                       ownedTokens := ownedTokens s;
                       transactions := transactions s;
                       privacyEnabled := privacyEnabled s;
                       purchaseInProgress := purchaseInProgress s |}).
  { unfold openPurchaseModal. rewrite Hproduct.
    by destruct (balance s <? Product.price product). }
  cbn [runAll run]. rewrite Hopen.
  unfold sendPayment. cbn [currentProduct]. rewrite Hproduct.
  unfold verifyRetailerAddress.
  rewrite (bool_decide_eq_true_2 _ Htrusted), String.eqb_refl. cbn [negb fst snd].
  split; [ reflexivity | ].
  unfold confirmReceipt. cbn [currentProduct addTransaction]. rewrite Hproduct.
  eexists _, _, _. split.
  { unfold closeModal, addTransaction. cbn.
    f_equal; first [ reflexivity | lia ]. }
  split_and!; reflexivity.
Qed.

(** X9: the Buy button of a product is disabled exactly when
    [openPurchaseModal] for it answers with the insufficient-balance alert
    instead of opening the modal; either way the product is selected. *)
Theorem buy_button_matches_modal
    (s : State) (productType : string) (disabled : bool) :
  (productType, disabled) ∈ updateBuyButtons s →
  ∃ product,
    productOf (Some productType) = Some product
    ∧ (openPurchaseModal productType s).2
      = (if disabled
         then [AlertInsufficientBalance (Product.price product) (balance s)]
         else [OpenModal "purchase-modal"])
    ∧ currentProduct (openPurchaseModal productType s).1 = Some productType.
Proof.
  intros ([key product] & [= -> ->] & Hin)%list_elem_of_fmap.
  apply listed_productOf in Hin. exists product. cbn [fst snd].
  unfold openPurchaseModal. rewrite Hin.
  by destruct (balance s <? Product.price product).
Qed.

(** X10: the balance test of [openPurchaseModal] does not bind
    [confirmReceipt]: after the insufficient-balance alert the product is
    selected all the same, and a receipt confirmed then adds the token and
    leaves a negative balance. *)
Theorem receipt_ignores_balance
    (s : State) (productType : string) (product : Product.t)
    (opened received draw : Z) :
  productOf (Some productType) = Some product →
  0 ≤ balance s < Product.price product →
  (openPurchaseModal productType s).2
    = [AlertInsufficientBalance (Product.price product) (balance s)]
  ∧ balance (runAll [(opened, OpOpenPurchaseModal productType);
                     (received, OpConfirmReceipt draw)] s)
    = balance s - Product.price product
  ∧ balance (runAll [(opened, OpOpenPurchaseModal productType);
                     (received, OpConfirmReceipt draw)] s) < 0
  ∧ length (ownedTokens
              (runAll [(opened, OpOpenPurchaseModal productType);
                       (received, OpConfirmReceipt draw)] s))
    = S (length (ownedTokens s)).
Proof.
  intros Hproduct [Hpos Hlow].
  assert (Hopen : openPurchaseModal productType s
                  = ({| balance := balance s;
                        currentProduct := Some productType;
                        transactionCounter := transactionCounter s;
                        ownedTokens := ownedTokens s;
                        transactions := transactions s;
                        privacyEnabled := privacyEnabled s;
                        purchaseInProgress := purchaseInProgress s |},
                     [AlertInsufficientBalance (Product.price product)
                                               (balance s)])).
  { unfold openPurchaseModal. rewrite Hproduct.
    by rewrite (proj2 (Z.ltb_lt _ _) Hlow). }
  cbn [runAll run]. rewrite Hopen. cbn [fst snd].
  unfold confirmReceipt. cbn [currentProduct]. rewrite Hproduct.
  cbn [fst balance ownedTokens closeModal addTransaction].
  rewrite length_app. cbn [length]. split_and!; [ done | done | lia | lia ].
Qed.

(** X17: a receipt can be looked up straight away, unless an older
    token has the id: after [confirmReceipt], [showTokenDetails] with the
    new token's id shows the new token when no owned token had that id, and
    the token that had it first otherwise. *)
Theorem receipt_then_details
    (s : State) (product : Product.t) (now draw : Z) :
  productOf (currentProduct s) = Some product →
  ∃ s' token,
    (confirmReceipt now draw s).1 = s'
    ∧ ownedTokens s' = ownedTokens s ++ [token]
    ∧ Token.id token = newTokenId product draw
    ∧ (newTokenId product draw ∉ Token.id <$> ownedTokens s →
       showTokenDetails (newTokenId product draw) s'
         = (s', [AlertTokenDetails token]))
    ∧ (∀ i older,
         list_find (λ t, Token.id t = newTokenId product draw) (ownedTokens s)
           = Some (i, older) →
         showTokenDetails (newTokenId product draw) s'
           = (s', [AlertTokenDetails older])).
Proof.
  intros Hproduct. unfold confirmReceipt. rewrite Hproduct. cbn [fst].
  eexists _, _. split; [ reflexivity | ].
  cbn [ownedTokens closeModal addTransaction].
  split; [ reflexivity | ]. split; [ reflexivity | ].
  unfold showTokenDetails. cbn [ownedTokens closeModal addTransaction]. split.
  - intros Hfresh.
    assert (Hnone : list_find (λ t, Token.id t = newTokenId product draw)
                              (ownedTokens s) = None).
    { apply list_find_None, Forall_forall. intros t Ht Hid.
      apply Hfresh, list_elem_of_fmap. eauto. }
    rewrite (list_find_app_r _ _ _ Hnone). cbn.
    by rewrite decide_True.
  - intros i older Hfind. by rewrite (list_find_app_l _ _ _ _ _ Hfind).
Qed.

(** X18: while no product of the table is selected, paying and confirming
    do nothing; this is so on the page as loaded, and after
    [openPurchaseModal] with an ordinary type the table does not have,
    which throws and leaves that type selected. *)
Theorem no_product_no_purchase
    (s : State) (productType address : string) (now draw : Z) :
  ordinary productType →
  productOf (Some productType) = None →
  sendPayment now address (loaded now) = (loaded now, [])
  ∧ confirmReceipt now draw (loaded now) = (loaded now, [])
  ∧ (openPurchaseModal productType s).2 = [TypeError]
  ∧ currentProduct (openPurchaseModal productType s).1 = Some productType
  ∧ sendPayment now address (openPurchaseModal productType s).1
    = ((openPurchaseModal productType s).1, [])
  ∧ confirmReceipt now draw (openPurchaseModal productType s).1
    = ((openPurchaseModal productType s).1, []).
Proof.
  intros _ Hunknown.
  assert (Hnone : productOf (currentProduct (loaded now)) = None)
    by reflexivity.
  split; [ unfold sendPayment; by rewrite Hnone | ].
  split; [ unfold confirmReceipt; by rewrite Hnone | ]. split_and!.
  - unfold openPurchaseModal. by rewrite Hunknown.
  - unfold openPurchaseModal. by rewrite Hunknown.
  - unfold openPurchaseModal. rewrite Hunknown. cbn [fst].
    unfold sendPayment. cbn [currentProduct]. by rewrite Hunknown.
  - unfold openPurchaseModal. rewrite Hunknown. cbn [fst].
    unfold confirmReceipt. cbn [currentProduct]. by rewrite Hunknown.
Qed.

(** *** Token ids *)

Lemma append_inv_head (a b c : string) : a +:+ b = a +:+ c → b = c.
Proof.
  induction a as [ | x a IH ]; [ done | ].
  rewrite !append_cons. intros [= H]. by apply IH.
Qed.

Lemma length_append (a b : string) :
  String.length (a +:+ b) = (String.length a + String.length b)%nat.
Proof.
  induction a as [ | x a IH ]; [ done | ].
  rewrite append_cons. cbn. by rewrite IH.
Qed.

Lemma idSuffixes_NoDup : NoDup idSuffixes.
Proof. apply (bool_decide_unpack _). vm_compute. reflexivity. Qed.

Lemma idSuffixes_length : Forall (λ suffix, String.length suffix = 3%nat) idSuffixes.
Proof. apply (bool_decide_unpack _). vm_compute. reflexivity. Qed.

Lemma idSuffixes_lookup (draw : Z) :
  0 ≤ draw < 100 →
  idSuffixes !! Z.to_nat draw = Some (padStart0 3 (toString (draw + 1))).
Proof.
  intros Hdraw. unfold idSuffixes.
  rewrite list_lookup_fmap, lookup_seq_lt by lia. cbn.
  by rewrite Z2Nat.id by lia.
Qed.

(** X8: for the hundred values the draw can take, the id of a new token
    is the product's prefix followed by exactly three characters, and two
    tokens of one product get the same id exactly when their draws are the
    same: a product has a hundred ids and no more. *)
Theorem newTokenId_by_draw (product : Product.t) (draw other : Z) :
  0 ≤ draw < 100 →
  0 ≤ other < 100 →
  String.length (newTokenId product draw)
    = (String.length (Product.tokenIdPrefix product) + 3)%nat
  ∧ (newTokenId product draw = newTokenId product other ↔ draw = other).
Proof.
  intros Hdraw Hother. pose proof (idSuffixes_lookup draw Hdraw) as Hd.
  pose proof (idSuffixes_lookup other Hother) as Ho.
  split.
  - unfold newTokenId. rewrite length_append. f_equal.
    pose proof idSuffixes_length as Hlen. rewrite Forall_forall in Hlen.
    by eapply Hlen, list_elem_of_lookup_2.
  - split; [ | by intros -> ].
    intros Heq%append_inv_head. rewrite <- Heq in Ho.
    pose proof (NoDup_lookup _ _ _ _ idSuffixes_NoDup Hd Ho). lia.
Qed.

End Purchase.

Lemma purchase_at_own_retailer_witness :
  ∃ payment transfer token,
    afterPurchase
    = {| balance := 150; currentProduct := Some "fragrance";
         transactionCounter := 10;
         ownedTokens := [token];
         transactions :=
           transfer :: payment :: transactions (loaded (locale := demoLocale) 0);
         privacyEnabled := false; purchaseInProgress := false |}
    ∧ Transaction.amount payment = Some "50 DLLR"
    ∧ Transaction.tokenId transfer = Some "#LUX-007"
    ∧ Token.burnLockDate token = unlocked.
Proof.
  destruct (purchase_at_own_retailer (locale := demoLocale)
              (loaded (locale := demoLocale) 0) "fragrance" fragrance
              0 1000 5000 6)
    as (_ & payment & transfer & token & Hstate & _ & _ & Hamount & _ & _ & _
        & Htoken & Hid & Hlock); [ reflexivity | ].
  exists payment, transfer, token. split_and!.
  - exact Hstate.
  - exact Hamount.
  - by rewrite Htoken, Hid.
  - exact Hlock.
Defined.

Lemma buy_button_matches_modal_witness :
  ∃ product,
    productOf (Some "energy") = Some product
    ∧ (openPurchaseModal "energy" afterTwoPurchases).2
      = [AlertInsufficientBalance (Product.price product) 100]
    ∧ currentProduct (openPurchaseModal "energy" afterTwoPurchases).1
      = Some "energy".
Proof.
  apply (buy_button_matches_modal afterTwoPurchases "energy" true).
  vm_compute. in_list.
Defined.

Lemma receipt_ignores_balance_witness :
  balance (runAll (locale := demoLocale)
             [(7000, OpOpenPurchaseModal "energy"); (8000, OpConfirmReceipt 0)]
             afterTwoPurchases)
    = 100 - 150.
Proof.
  destruct (receipt_ignores_balance (locale := demoLocale) afterTwoPurchases
              "energy" energy 7000 8000 0)
    as (_ & Hbalance & _); [ reflexivity | | exact Hbalance ].
  split; [ vm_compute; discriminate | reflexivity ].
Defined.

Lemma receipt_then_details_witness :
  ∃ s' token,
    (confirmReceipt (locale := demoLocale) 6000 6 afterPurchase).1 = s'
    ∧ Token.burnLockDate token = 6000 + 14 * dayMs
    ∧ showTokenDetails "#LUX-007" s' = (s', [AlertTokenDetails purchasedToken]).
Proof.
  destruct (receipt_then_details (locale := demoLocale) afterPurchase fragrance
              6000 6)
    as (s' & token & Hstate & Howned & _ & _ & Hshadow); [ reflexivity | ].
  exists s', token. split_and!.
  - exact Hstate.
  - rewrite <- Hstate in Howned. by injection Howned as <-.
  - by apply (Hshadow 0%nat purchasedToken).
Defined.

Lemma no_product_no_purchase_witness :
  (openPurchaseModal "perfume" afterPurchase).2 = [TypeError]
  ∧ confirmReceipt (locale := demoLocale) 7000 1
      (openPurchaseModal "perfume" afterPurchase).1
    = ((openPurchaseModal "perfume" afterPurchase).1, []).
Proof.
  destruct (no_product_no_purchase (locale := demoLocale) afterPurchase
              "perfume" "0xU...rah5r" 7000 1)
    as (_ & _ & Hthrow & _ & _ & Hconfirm).
  - apply (bool_decide_unpack _). reflexivity.
  - reflexivity.
  - split; [ exact Hthrow | exact Hconfirm ].
Defined.

Lemma newTokenId_by_draw_witness :
  String.length (newTokenId fragrance 6) = 8%nat
  ∧ (newTokenId fragrance 6 = newTokenId fragrance 99 ↔ 6 = 99).
Proof.
  apply (newTokenId_by_draw fragrance 6 99);
    (split; [ vm_compute; discriminate | reflexivity ]).
Defined.

End ViewFacts.

(** ** More on the redactor and the history call *)

Module ShieldFacts.
Import JsFacts Redactor RedactorFacts Scenario.

Lemma rebuild_NoDup entries publicData :
  NoDup publicData.*1 → NoDup (rebuild entries publicData).*1.
Proof.
  revert publicData. induction entries as [ | kv entries IH ]; intros acc Hacc;
    [ done | ].
  unfold rebuild. cbn [fold_left]. fold (rebuild entries).
  by apply IH, set_NoDup.
Qed.

(** X11: redacting a public view again changes nothing. *)
Theorem extractPublicData_idempotent (data : value) :
  extractPublicData (extractPublicData data) = extractPublicData data.
Proof.
  induction data as [ | | | | items IH | entries IH ] using value_ind';
    try reflexivity.
  - change (extractPublicData (VArr items))
      with (VArr (map extractPublicData items)).
    change (extractPublicData (VArr ?l)) with (VArr (map extractPublicData l)).
    f_equal. rewrite map_map. apply map_ext_in. intros item Hin.
    rewrite Forall_forall in IH. by apply IH, list_elem_of_In.
  - rewrite !extractPublicData_object. f_equal.
    rewrite (rebuild_fresh (rebuild entries []) []).
    + cbn [app]. rewrite filter_all.
      * rewrite <- (map_id (rebuild entries [])) at 2.
        apply map_ext_in. intros shown Hshown%list_elem_of_In.
        apply rebuild_elem_of in Hshown as [Hnil | ([k v] & Hkv & _ & ->)];
          [ by apply elem_of_nil in Hnil | ].
        unfold publicEntry. cbn [fst snd].
        destruct (isSensitiveField k); [ done | ].
        rewrite Forall_forall in IH. f_equal. exact (IH (k, v) Hkv).
      * apply Forall_forall. intros shown Hshown.
        by apply rebuild_elem_of in Hshown as [Hnil | (kv & _ & Hown & ->)];
          [ apply elem_of_nil in Hnil | ].
    + cbn [fmap list_fmap app]. apply rebuild_NoDup. constructor.
Qed.

Section History.

Variable encodeJson : value → list N.
Variable generateProof : string → value → option ProofBundle.

(** X12: when the server answers with an object, [getSupplyChainHistory]
    always resolves, to an object with the same member names in the same
    order, in which every member other than [history] is as the server sent
    it; without privacy mode the object is the server's, untouched, and
    nothing is written to the console. *)
Theorem history_call_touches_history_only
    (privacy : bool) (entries : list (string * value)) :
  ∃ entries' console,
    getSupplyChainHistory encodeJson generateProof privacy (Some (VObj entries))
      = Resolved (VObj entries') console
    ∧ entries'.*1 = entries.*1
    ∧ (∀ key, key ≠ "history" → Js.get key entries' = Js.get key entries)
    ∧ (privacy = false → entries' = entries ∧ console = []).
Proof.
  unfold getSupplyChainHistory.
  destruct (Js.get "history" entries) as [ history | ] eqn:Hget;
    [ | by exists entries, [] ].
  destruct privacy; [ | by exists entries, [] ].
  cbn [andb]. destruct (truthy history); [ | by exists entries, [] ].
  destruct (applyPrivacyShield encodeJson generateProof history)
    as [shielded console].
  exists (Js.set "history" shielded entries), console. split_and!.
  - done.
  - rewrite set_keys by done.
    rewrite bool_decide_eq_true_2; [ done | by eapply get_keys ].
  - intros key Hkey. by apply get_set_ne.
  - done.
Qed.

End History.

End ShieldFacts.

(** ** The cache of the Scrolls API service and its hash *)

Module ScrollsFacts.
Import JsFacts Redactor Scrolls.

(** *** The hash *)

Lemma unhex_hexDigit (d : N) : (d < 16)%N → unhexDigit (hexDigit d) = Some d.
Proof.
  intros Hd. rewrite <- (N2Nat.id d).
  assert (Hn : (N.to_nat d < 16)%nat) by lia. revert Hn.
  generalize (N.to_nat d). intros n Hn.
  do 16 (destruct n as [ | n ]; [ reflexivity | ]). lia.
Qed.

Lemma hexByte_digits (b : N) :
  (b < 256)%N →
  hexByte b = String (hexDigit (b / 16)) (String (hexDigit (b mod 16)) "").
Proof.
  intros Hb. unfold hexByte. destruct (N.ltb_spec b 16) as [Hlow | Hhigh].
  - rewrite N.div_small, N.mod_small by done. reflexivity.
  - reflexivity.
Qed.

Lemma unhex_hexByte (b : N) (rest : string) :
  (b < 256)%N →
  unhex (hexByte b +:+ rest) = (λ bytes, b :: bytes) <$> unhex rest.
Proof.
  intros Hb. rewrite hexByte_digits by done. rewrite !append_cons.
  cbn [unhex]. rewrite !unhex_hexDigit.
  - rewrite append_nil_l. destruct (unhex rest); [ | done ].
    cbn. do 2 f_equal. pose proof (N.div_mod b 16). lia.
  - apply N.mod_upper_bound. lia.
  - apply N.Div0.div_lt_upper_bound. lia.
Qed.

Lemma hexByte_length (b : N) :
  (b < 256)%N → String.length (hexByte b) = 2%nat.
Proof. intros Hb. by rewrite hexByte_digits. Qed.

Section Hash.

Variable encodeJson : value → list N.

Lemma unhex_hashData data :
  Forall (λ b, (b < 256)%N) (encodeJson data) →
  unhex (hashData encodeJson data) = Some (encodeJson data).
Proof.
  unfold hashData. induction 1 as [ | b bytes Hb Hbytes IH ]; [ done | ].
  cbn [fold_right]. rewrite unhex_hexByte by done. by rewrite IH.
Qed.

(** X13: the hash [applyPrivacyShield] hands to the prover as a public
    input is the data itself in hexadecimal: it can be read back byte for
    byte, so two inputs have the same hash only when their encodings are
    the same, and it is twice as long as the encoding. *)
Theorem hashData_is_reversible (data other : value) :
  Forall (λ b, (b < 256)%N) (encodeJson data) →
  Forall (λ b, (b < 256)%N) (encodeJson other) →
  unhex (hashData encodeJson data) = Some (encodeJson data)
  ∧ (hashData encodeJson data = hashData encodeJson other →
     encodeJson data = encodeJson other)
  ∧ String.length (hashData encodeJson data)
    = (2 * length (encodeJson data))%nat.
Proof.
  intros Hdata Hother. split_and!.
  - by apply unhex_hashData.
  - intros Heq. apply (f_equal unhex) in Heq.
    rewrite !unhex_hashData in Heq by done. by injection Heq.
  - unfold hashData.
    induction Hdata as [ | b bytes Hb Hbytes IH ]; [ done | ].
    cbn [fold_right length]. rewrite ViewFacts.length_append.
    rewrite hexByte_length by done. rewrite IH. lia.
Qed.

End Hash.

Lemma hashData_is_reversible_witness :
  unhex (hashData (λ _, [123; 125]%N) VNull) = Some [123; 125]%N
  ∧ hashData (λ _, [123; 125]%N) VNull = "7b7d".
Proof.
  destruct (hashData_is_reversible (λ _, [123; 125]%N) VNull (VBool true))
    as (Hback & _ & _).
  - apply (bool_decide_unpack _). reflexivity.
  - apply (bool_decide_unpack _). reflexivity.
  - split; [ exact Hback | reflexivity ].
Defined.

(** *** The cache *)

Section Cache.

Variable stringify : value → string.

(** X14: a query answered by the server is answered from the cache, with
    the same data and without a change of the cache, for as long as less
    than 60000 ms have passed since the answer was stored, whatever the
    server would say then; from 60000 ms on the server is asked again, its
    answer replaces the stored one, and a failure then throws and keeps the
    old entry.  After [clearCache] the server is asked at once. *)
Theorem query_cache_round_trip
    (query answer : value) (now arrival : Z) (cache : gmap string CacheEntry) :
  cache !! ("query_" +:+ stringify query) = None →
  ∃ stored,
    queryCharms stringify now arrival (Some answer) query cache
      = (Returned answer, stored)
    ∧ (∀ later arrival' response',
         later - arrival < 60000 →
         queryCharms stringify later arrival' response' query stored
           = (Returned answer, stored))
    ∧ (∀ later arrival' answer',
         60000 ≤ later - arrival →
         ∃ renewed,
           queryCharms stringify later arrival' (Some answer') query stored
             = (Returned answer', renewed)
           ∧ renewed !! ("query_" +:+ stringify query)
             = Some {| data := answer'; timestamp := arrival' |})
    ∧ (∀ later arrival',
         60000 ≤ later - arrival →
         queryCharms stringify later arrival' None query stored
           = (Thrown, stored))
    ∧ (∀ later arrival' answer',
         (queryCharms stringify later arrival' (Some answer') query
                      (clearCache stored)).1
           = Returned answer').
Proof.
  intros Hmiss. unfold queryCharms. rewrite Hmiss.
  eexists. split; [ reflexivity | ].
  rewrite lookup_insert_eq. cbn [timestamp data]. unfold cacheTTL.
  split_and!; [ | | | by intros; unfold clearCache; rewrite lookup_empty ].
  - intros later arrival' response' Hfresh.
    by rewrite (proj2 (Z.ltb_lt _ _) Hfresh).
  - intros later arrival' answer' Hstale.
    rewrite (proj2 (Z.ltb_ge _ _) Hstale).
    eexists. split; [ reflexivity | ]. by rewrite lookup_insert_eq.
  - intros later arrival' Hstale.
    by rewrite (proj2 (Z.ltb_ge _ _) Hstale).
Qed.

(** X19: [getCharmToken] keeps its answers in the same way: an answer
    of the server is given again from the cache for less than 60000 ms
    after it was stored, whatever the server would say then, and from
    60000 ms on the server is asked again, a failure throwing and keeping
    the old entry. *)
Theorem token_cache_round_trip
    (tokenId : string) (includeHistory zkProof : bool) (answer : value)
    (now arrival : Z) (cache : gmap string CacheEntry) :
  cache !! ("token_" +:+ tokenId +:+ "_" +:+ showBool includeHistory
              +:+ "_" +:+ showBool zkProof) = None →
  ∃ stored,
    getCharmToken now arrival (Some answer) tokenId includeHistory zkProof cache
      = (Returned answer, stored)
    ∧ (∀ later arrival' response',
         later - arrival < 60000 →
         getCharmToken later arrival' response' tokenId includeHistory zkProof
                       stored
           = (Returned answer, stored))
    ∧ (∀ later arrival' answer',
         60000 ≤ later - arrival →
         (getCharmToken later arrival' (Some answer') tokenId includeHistory
                        zkProof stored).1
           = Returned answer')
    ∧ (∀ later arrival',
         60000 ≤ later - arrival →
         getCharmToken later arrival' None tokenId includeHistory zkProof stored
           = (Thrown, stored)).
Proof.
  intros Hmiss. unfold getCharmToken. rewrite Hmiss.
  eexists. split; [ reflexivity | ].
  rewrite lookup_insert_eq. cbn [timestamp data]. unfold cacheTTL. split_and!.
  - intros later arrival' response' Hfresh.
    by rewrite (proj2 (Z.ltb_lt _ _) Hfresh).
  - intros later arrival' answer' Hstale.
    by rewrite (proj2 (Z.ltb_ge _ _) Hstale).
  - intros later arrival' Hstale.
    by rewrite (proj2 (Z.ltb_ge _ _) Hstale).
Qed.

(** What a call does to the entries under other keys, and what its reply
    depends on. *)
Lemma queryCharms_other now arrival response query cache key :
  key ≠ "query_" +:+ stringify query →
  (queryCharms stringify now arrival response query cache).2 !! key
    = cache !! key.
Proof.
  intros Hkey. unfold queryCharms.
  destruct (cache !! _) as [ cached | ];
    [ destruct (_ <? _); [ done | ] | ];
    (destruct response; cbn [snd]; [ by rewrite lookup_insert_ne | done ]).
Qed.

Lemma getCharmToken_other now arrival response tokenId includeHistory zkProof
    cache key :
  key ≠ "token_" +:+ tokenId +:+ "_" +:+ showBool includeHistory
          +:+ "_" +:+ showBool zkProof →
  (getCharmToken now arrival response tokenId includeHistory zkProof cache).2
    !! key
  = cache !! key.
Proof.
  intros Hkey. unfold getCharmToken.
  destruct (cache !! _) as [ cached | ];
    [ destruct (_ <? _); [ done | ] | ];
    (destruct response; cbn [snd]; [ by rewrite lookup_insert_ne | done ]).
Qed.

Lemma queryCharms_reply now arrival response query cache cache' :
  cache' !! ("query_" +:+ stringify query)
    = cache !! ("query_" +:+ stringify query) →
  (queryCharms stringify now arrival response query cache').1
  = (queryCharms stringify now arrival response query cache).1.
Proof.
  intros Hsame. unfold queryCharms. rewrite Hsame.
  destruct (cache !! _) as [ cached | ];
    [ destruct (_ <? _); [ done | ] | ]; by destruct response.
Qed.

Lemma getCharmToken_reply now arrival response tokenId includeHistory zkProof
    cache cache' :
  cache' !! ("token_" +:+ tokenId +:+ "_" +:+ showBool includeHistory
               +:+ "_" +:+ showBool zkProof)
    = cache !! ("token_" +:+ tokenId +:+ "_" +:+ showBool includeHistory
                  +:+ "_" +:+ showBool zkProof) →
  (getCharmToken now arrival response tokenId includeHistory zkProof cache').1
  = (getCharmToken now arrival response tokenId includeHistory zkProof cache).1.
Proof.
  intros Hsame. unfold getCharmToken. rewrite Hsame.
  destruct (cache !! _) as [ cached | ];
    [ destruct (_ <? _); [ done | ] | ]; by destruct response.
Qed.

(** Cache keys tell calls apart. *)
Lemma list_of_append (a b : string) :
  String.list_ascii_of_string (a +:+ b)
  = String.list_ascii_of_string a ++ String.list_ascii_of_string b.
Proof.
  induction a as [ | x a IH ]; [ done | ].
  rewrite append_cons. cbn. by rewrite IH.
Qed.

Lemma tail_chars (l suffix : list ascii) (n : nat) :
  (n ≤ length suffix)%nat →
  take n (reverse (l ++ suffix)) = take n (reverse suffix).
Proof.
  intros Hn. rewrite reverse_app. apply take_app_le.
  by rewrite length_reverse.
Qed.

Lemma token_key_inj (tokenId tokenId' : string) (a b a' b' : bool) :
  "token_" +:+ tokenId +:+ "_" +:+ showBool a +:+ "_" +:+ showBool b
  = "token_" +:+ tokenId' +:+ "_" +:+ showBool a' +:+ "_" +:+ showBool b' →
  tokenId = tokenId' ∧ a = a' ∧ b = b'.
Proof.
  intros Hkey%ViewFacts.append_inv_head.
  apply (f_equal String.list_ascii_of_string) in Hkey.
  rewrite (list_of_append tokenId), (list_of_append tokenId') in Hkey.
  pose proof (f_equal (λ l, take 10 (reverse l)) Hkey) as Htail.
  cbn beta in Htail.
  destruct a, b, a', b';
    rewrite !tail_chars in Htail by (vm_compute; lia);
    vm_compute in Htail; try discriminate Htail;
    apply app_inv_tail in Hkey;
    apply (f_equal String.string_of_list_ascii) in Hkey;
    rewrite !String.string_of_list_ascii_of_string in Hkey; done.
Qed.

(** X15: calls do not answer for one another.  The reply to
    [getCharmToken] is the same whether or not a [getCharmToken] with
    another token id or other options, or any [queryCharms], has filled the
    cache before; and the reply to [queryCharms] is the same whether or not
    any [getCharmToken] has. *)
Theorem cache_calls_do_not_interfere
    (tokenId tokenId' : string) (includeHistory zkProof includeHistory' zkProof' : bool)
    (query : value) (now arrival later arrival' : Z)
    (response response' : option value) (cache : gmap string CacheEntry) :
  (tokenId, includeHistory, zkProof) ≠ (tokenId', includeHistory', zkProof') →
  (getCharmToken later arrival' response' tokenId' includeHistory' zkProof'
     (getCharmToken now arrival response tokenId includeHistory zkProof cache).2).1
  = (getCharmToken later arrival' response' tokenId' includeHistory' zkProof'
       cache).1
  ∧ (getCharmToken later arrival' response' tokenId' includeHistory' zkProof'
       (queryCharms stringify now arrival response query cache).2).1
    = (getCharmToken later arrival' response' tokenId' includeHistory' zkProof'
         cache).1
  ∧ (queryCharms stringify later arrival' response' query
       (getCharmToken now arrival response tokenId includeHistory zkProof
          cache).2).1
    = (queryCharms stringify later arrival' response' query cache).1.
Proof.
  intros Hother. split_and!.
  - apply getCharmToken_reply, getCharmToken_other.
    intros (-> & -> & ->)%token_key_inj. by apply Hother.
  - apply getCharmToken_reply, queryCharms_other. by intros [=].
  - apply queryCharms_reply, getCharmToken_other. by intros [=].
Qed.

End Cache.

Lemma query_cache_round_trip_witness :
  ∃ stored,
    queryCharms (λ _, "{}") 0 150 (Some (VStr "first")) VNull ∅
      = (Returned (VStr "first"), stored)
    ∧ queryCharms (λ _, "{}") 60149 60200 (Some (VStr "second")) VNull stored
      = (Returned (VStr "first"), stored)
    ∧ queryCharms (λ _, "{}") 60150 60200 None VNull stored = (Thrown, stored).
Proof.
  destruct (query_cache_round_trip (λ _, "{}") VNull (VStr "first") 0 150 ∅)
    as (stored & Hfirst & Hfresh & _ & Hfail & _); [ reflexivity | ].
  exists stored. split_and!.
  - exact Hfirst.
  - apply Hfresh. reflexivity.
  - apply Hfail. vm_compute. discriminate.
Defined.

Lemma token_cache_round_trip_witness :
  ∃ stored,
    getCharmToken 0 150 (Some (VStr "first")) "#LUX-007" true false ∅
      = (Returned (VStr "first"), stored)
    ∧ getCharmToken 60149 60200 None "#LUX-007" true false stored
      = (Returned (VStr "first"), stored)
    ∧ getCharmToken 60150 60200 None "#LUX-007" true false stored
      = (Thrown, stored).
Proof.
  destruct (token_cache_round_trip "#LUX-007" true false (VStr "first") 0 150 ∅)
    as (stored & Hfirst & Hfresh & _ & Hfail); [ reflexivity | ].
  exists stored. split_and!.
  - exact Hfirst.
  - apply Hfresh. reflexivity.
  - apply Hfail. vm_compute. discriminate.
Defined.

Lemma cache_calls_do_not_interfere_witness :
  (getCharmToken 10 20 None "#LUX-007" true true
     (getCharmToken 0 5 (Some (VStr "token")) "#LUX-007" true false ∅).2).1
  = Thrown.
Proof.
  destruct (cache_calls_do_not_interfere (λ _, "{}") "#LUX-007" "#LUX-007"
              true false true true VNull 0 5 10 20 (Some (VStr "token")) None ∅)
    as (Htoken & _ & _); [ by intros [=] | ].
  rewrite Htoken. reflexivity.
Defined.

End ScrollsFacts.

